(** * SignSpeak-Ai: the interpreter's streaming and session pipeline

    A shallow embedding of [src/components/Interpreter.tsx] (with
    [src/types.ts]) and the properties its specification states about it:
    gapless playback of the inbound audio, the aggregation of transcript
    deltas into turns, muting, and the life cycle of a session with its
    failures.

    The component is a React function component.  Its body runs once per
    render; [useState] binds each state variable to the value it has at
    that render, and every function declared in the body closes over those
    bindings.  [useRef] cells are shared by all renders.  The embedding
    keeps the two apart: a [Render] holds what a closure can see of the
    state, the [Store] holds the live state, the refs and the browser
    resources the component has created. *)

From Stdlib Require Import ZArith NArith Bool List Ascii String.
From Stdlib.Strings Require Import Byte.
From Stdlib Require Import DecimalString Lia.
From stdpp Require Import base list.
Import ListNotations.

Local Open Scope string_scope.

(* ------------------------------------------------------------------ *)
(** ** JavaScript strings: truthiness and [trim] *)

(** A string is held as the bytes of its UTF-8 form: concatenation and
    emptiness are those of the bytes, and [trim] works on the code points
    the bytes spell. *)

(** The code points [trim] strips: WhiteSpace (TAB, VT, FF, ZWNBSP and
    the space separators) and LineTerminator (LF, CR, LS, PS) of
    ECMAScript. *)
Definition WhiteSpace : list N :=
  [0x0009; 0x000B; 0x000C; 0xFEFF;
   0x0020; 0x00A0; 0x1680; 0x2000; 0x2001; 0x2002; 0x2003; 0x2004; 0x2005;
   0x2006; 0x2007; 0x2008; 0x2009; 0x200A; 0x202F; 0x205F; 0x3000]%N.

Definition LineTerminator : list N := [0x000A; 0x000D; 0x2028; 0x2029]%N.

Definition isWhiteSpace (codePoint : N) : bool :=
  existsb (N.eqb codePoint) (WhiteSpace ++ LineTerminator)%list.

(** The six bits a continuation byte [10xxxxxx] carries. *)
Definition continuation (b : ascii) : option N :=
  let n := N_of_ascii b in
  if ((0x80 <=? n) && (n <=? 0xBF))%N then Some (n - 0x80)%N else None.

(** What a byte that begins no code point of the basic plane counts as:
    a character of its own that is no white space. *)
Definition other : N := 0x110000%N.

(** The characters of a string, each with the bytes that spell it.  The
    code points that [trim] strips take one, two or three bytes; the bytes
    of a longer or ill-formed sequence are kept one by one. *)
Fixpoint codePoints (s : string) : list (N * string) :=
  match s with
  | EmptyString => []
  | String b1 s1 =>
      let n1 := N_of_ascii b1 in
      let one := String b1 EmptyString in
      if (n1 <? 0x80)%N then (n1, one) :: codePoints s1
      else
        match s1 with
        | String b2 s2 =>
            match continuation b2 with
            | Some n2 =>
                if ((0xC2 <=? n1) && (n1 <=? 0xDF))%N
                then (((n1 - 0xC0) * 64 + n2)%N, String b1 (String b2 EmptyString))
                       :: codePoints s2
                else
                  match s2 with
                  | String b3 s3 =>
                      match continuation b3 with
                      | Some n3 =>
                          let c := (((n1 - 0xE0) * 64 + n2) * 64 + n3)%N in
                          if ((0xE0 <=? n1) && (n1 <=? 0xEF) && (0x800 <=? c))%N
                          then (c, String b1 (String b2 (String b3 EmptyString)))
                                 :: codePoints s3
                          else (other, one) :: codePoints s1
                      | None => (other, one) :: codePoints s1
                      end
                  | EmptyString => (other, one) :: codePoints s1
                  end
            | None => (other, one) :: codePoints s1
            end
        | EmptyString => [(other, one)]
        end
  end.

Definition white (c : N * string) : bool := isWhiteSpace (fst c).

Fixpoint dropWhite (l : list (N * string)) : list (N * string) :=
  match l with
  | c :: l' => if white c then dropWhite l' else l
  | [] => []
  end.

Definition join (l : list (N * string)) : string :=
  fold_right (fun c s => snd c ++ s) "" l.

(** [String.prototype.trim]: the white space is dropped at both ends. *)
Definition trim (s : string) : string :=
  join (rev (dropWhite (rev (dropWhite (codePoints s))))).

(** Empty or white space only. *)
Definition blank (s : string) : bool := forallb white (codePoints s).

(** The string of the given bytes. *)
Definition utf8 (bytes : list N) : string :=
  string_of_list_ascii (map ascii_of_N bytes).

(** The UTF-8 form of a code point of the basic plane. *)
Definition encode (codePoint : N) : string :=
  utf8 (if (codePoint <? 0x80)%N then [codePoint]
        else if (codePoint <? 0x800)%N
        then [0xC0 + codePoint / 64; 0x80 + codePoint mod 64]%N
        else [0xE0 + codePoint / 4096; 0x80 + (codePoint / 64) mod 64;
              0x80 + codePoint mod 64]%N).

(** A string used as a condition is true exactly when it is not empty. *)
Definition truthy (s : string) : bool :=
  match s with EmptyString => false | String _ _ => true end.

(** [a || b] on strings. *)
Definition or_else (a b : string) : string := if truthy a then a else b.

(** [x?.y] chains end in [undefined], which is falsy like the empty string. *)
Definition truthy_opt (o : option string) : bool :=
  match o with Some s => truthy s | None => false end.

(** [Date.now().toString()]. *)
Definition toString (n : Z) : string := NilZero.string_of_int (Z.to_int n).

(* ------------------------------------------------------------------ *)
(** ** JavaScript numbers: the times of the audio clock *)

(** [ctx.currentTime], [audioBuffer.duration] and what [Math.max] and [+]
    make of them are doubles (IEEE 754 binary64) that are never negative
    and never NaN: the audio clock starts at 0 and only advances, and the
    duration of a buffer is its length divided by its sample rate.  Every
    finite double is a whole number of units of
    2^-1074 s, the least positive double; a double is held as that number.
    2^2098 units, the power of two next above the greatest finite double,
    stand for [Infinity]. *)
Module Double.

Definition infinity_units : N := 2 ^ 2098.

(** The exponent of the unit in the last place: a double has 53
    significant bits, and below 2^53 units the last place is one unit. *)
Definition ulp_exponent (n : N) : N := N.log2 n - 52.

Definition representable (n : N) : bool :=
  (n mod 2 ^ ulp_exponent n =? 0)%N && (n <=? infinity_units)%N.

(** The double nearest to [a / b] units, of two equally near ones the one
    with the even mantissa (roundTiesToEven); what rounds to 2^2098 units
    or more is [Infinity]. *)
Definition round (a : N) (b : positive) : N :=
  let e := ulp_exponent (a / Npos b) in
  let ulp := (Npos b * 2 ^ e)%N in
  let q := (a / ulp)%N in
  let q' := match (2 * (a mod ulp) ?= ulp)%N with
            | Lt => q
            | Gt => (q + 1)%N
            | Eq => if N.even q then q else (q + 1)%N
            end in
  N.min (q' * 2 ^ e) infinity_units.

End Double.

Record double := {
  units : N;
  is_double : Double.representable units = true
}.

Declare Scope double_scope.
Delimit Scope double_scope with double.
Bind Scope double_scope with double.

Definition double_zero : double := {| units := 0; is_double := eq_refl |}.

Notation "0" := double_zero : double_scope.

(** The double of [n] units.  [Double.round] yields no other numbers
    ([representable_round] below), so that the second case is never
    met in what follows. *)
Definition double_of_units (n : N) : double :=
  match Double.representable n as b
        return Double.representable n = b -> double with
  | true => fun H => {| units := n; is_double := H |}
  | false => fun _ => 0%double
  end eq_refl.

(** [x + y]. *)
Definition double_add (x y : double) : double :=
  double_of_units (Double.round (units x + units y) 1).

(** [n / d] of two whole numbers, as the audio buffer makes its duration
    of its length and its sample rate. *)
Definition double_div (n : N) (d : positive) : double :=
  double_of_units (Double.round (n * 2 ^ 1074) d).

(** [Math.max(x, y)]. *)
Definition Math_max (x y : double) : double :=
  if (units x <=? units y)%N then y else x.

(** [x <= y]. *)
Definition double_le (x y : double) : Prop := (units x <= units y)%N.

(* ------------------------------------------------------------------ *)
(** ** src/types.ts *)

Inductive ConnectionState := DISCONNECTED | CONNECTING | CONNECTED | ERROR.

Inductive Role := user | model | system.

Record Message := {
  id : string;
  role : Role;
  text : string;
  timestamp : Z;              (* a [Date], in milliseconds *)
  isFinal : option bool
}.

(* ------------------------------------------------------------------ *)
(** ** What the component talks to *)

(** The payload of [session.sendRealtimeInput({media: ...})]. *)
Record Media := { mimeType : string; data : string }.

(** The fields of a [LiveServerMessage] that [handleServerMessage] reads,
    under the names of its local constants. *)
Record LiveServerMessage := {
  audioData : option string;         (* serverContent?.modelTurn?.parts?.[0]?.inlineData?.data *)
  outputTranscript : option string;  (* serverContent?.outputTranscription?.text *)
  inputTranscript : option string;   (* serverContent?.inputTranscription?.text *)
  turnComplete : bool                (* serverContent?.turnComplete *)
}.

(** The bindings of one render that the closures of that render read. *)
Record Render := {
  r_isMuted : bool;
  r_isVideoEnabled : bool;
  r_currentTranscription : string
}.

Inductive AudioContextState := suspended | running.

Inductive ReadyState := Handshaking | Open | Closed.

(** One call of [ai.live.connect]: the callbacks it was given belong to the
    render [tr_render] and to the [stream] of that [startSession] call. *)
Record Transport := {
  tr_render : Render;
  tr_stream : nat;
  tr_readyState : ReadyState;
  tr_resolved : bool;         (* has the promise of [connect] resolved? *)
  tr_thens : list (Media * string);
                              (* sends waiting on that promise, each with
                                 the text its [catch] would log *)
  tr_sent : list Media        (* what [sendRealtimeInput] has put on the wire *)
}.

(** One call of [startAudioInput]: a source node, a script processor and
    the [isMuted] its [onaudioprocess] closed over. *)
Record AudioGraph := {
  ag_stream : nat;
  ag_isMuted : bool;
  ag_source_connected : bool;
  ag_processor_connected : bool
}.

(** One [window.setInterval] of [startVideoStreaming]. *)
Record Interval := { iv_isVideoEnabled : bool; iv_active : bool }.

(** Where a [startSession] call is suspended. *)
Inductive AwaitPoint :=
| AwaitGetUserMedia
| AwaitPlay (stream : nat)
| Settled.

Record StartCall := {
  sc_render : Render;
  sc_apiKey : string;
  sc_await : AwaitPoint
}.

Inductive Level := log | warn | error.

(* ------------------------------------------------------------------ *)
(** ** The store *)

(** [useState] cells. *)
Record State := {
  connectionState : ConnectionState;
  isMuted : bool;
  isVideoEnabled : bool;
  messages : list Message;
  currentTranscription : string;
  errorMsg : option string
}.

(** [useRef] cells.  Media streams, transports, audio graphs and intervals
    are named by their position in the lists of [Browser]; a ref that holds
    one is truthy (they are objects, and the ids of [setInterval] are
    positive).  Times are seconds of the audio clock. *)
Record Refs := {
  streamRef : option nat;
  sessionRef : option nat;
  sessionPromiseRef : option nat;
  audioContextRef : option AudioContextState;
  inputAudioContextRef : option AudioContextState;
  nextStartTimeRef : double;
  frameIntervalRef : option nat;
  processorRef : option nat;
  sourceRef : option nat
}.

(** What the component has created outside itself. *)
Record Browser := {
  streams : list bool;                    (* are the tracks of the stream live? *)
  transports : list Transport;
  audioGraphs : list AudioGraph;
  intervals : list Interval;
  startCalls : list StartCall;
  scheduled : list (double * double);     (* [source.start(startTime)], with the buffer's duration *)
  console : list (Level * string)
}.

Record Store := {
  state : State;
  refs : Refs;
  browser : Browser;
  (** every value [setConnectionState] was called with, oldest first *)
  connectionStateWrites : list ConnectionState
}.

Definition initialStore : Store := {|
  state := {| connectionState := DISCONNECTED; isMuted := false;
              isVideoEnabled := true; messages := [];
              currentTranscription := ""; errorMsg := None |};
  refs := {| streamRef := None; sessionRef := None; sessionPromiseRef := None;
             audioContextRef := None; inputAudioContextRef := None;
             nextStartTimeRef := 0; frameIntervalRef := None;
             processorRef := None; sourceRef := None |};
  browser := {| streams := []; transports := []; audioGraphs := [];
                intervals := []; startCalls := []; scheduled := [];
                console := [] |};
  connectionStateWrites := []
|}.

(** The render that follows a state: what a closure created now will see. *)
Definition render (st : Store) : Render := {|
  r_isMuted := isMuted (state st);
  r_isVideoEnabled := isVideoEnabled (state st);
  r_currentTranscription := currentTranscription (state st)
|}.

(* ------------------------------------------------------------------ *)
(** ** services/audioUtils: the transport encoding

    [Interpreter.tsx] imports [uint8ArrayToBase64] and [base64ToUint8Array]
    from [../services/audioUtils], which is not among the sources. *)

Module Base64.

(** Six bits, most significant first. *)
Definition Sextet : Type := (bool * bool * bool * bool * bool * bool)%type.

Definition alphabet : string :=
  "ABCDEFGHIJKLMNOPQRSTUVWXYZabcdefghijklmnopqrstuvwxyz0123456789+/".

Definition bit (b : bool) (weight : nat) : nat := if b then weight else O.

Definition index (s : Sextet) : nat :=
  let '(b5, b4, b3, b2, b1, b0) := s in
  (bit b5 32 + bit b4 16 + bit b3 8 + bit b2 4 + bit b1 2 + bit b0 1)%nat.

Definition pad : ascii := "="%char.

Definition encode_sextet (s : Sextet) : ascii :=
  nth (index s) (list_ascii_of_string alphabet) pad.

Definition all_sextets : list Sextet :=
  let bs := [false; true] in
  b5 ← bs; b4 ← bs; b3 ← bs; b2 ← bs; b1 ← bs; b0 ← bs;
  [(b5, b4, b3, b2, b1, b0)].

Definition decode_char (c : ascii) : option Sextet :=
  find (fun s => Ascii.eqb (encode_sextet s) c) all_sextets.

(** Three bytes are four sextets; [Byte.to_bits] lists the bits of a byte
    from the least significant one. *)
Definition sextets (a b c : byte) : Sextet * Sextet * Sextet * Sextet :=
  let '(a0, (a1, (a2, (a3, (a4, (a5, (a6, a7))))))) := Byte.to_bits a in
  let '(b0, (b1, (b2, (b3, (b4, (b5, (b6, b7))))))) := Byte.to_bits b in
  let '(c0, (c1, (c2, (c3, (c4, (c5, (c6, c7))))))) := Byte.to_bits c in
  ((a7, a6, a5, a4, a3, a2), (a1, a0, b7, b6, b5, b4),
   (b3, b2, b1, b0, c7, c6), (c5, c4, c3, c2, c1, c0)).

Definition first_byte (s1 s2 : Sextet) : byte :=
  let '(a7, a6, a5, a4, a3, a2) := s1 in
  let '(a1, a0, _, _, _, _) := s2 in
  Byte.of_bits (a0, (a1, (a2, (a3, (a4, (a5, (a6, a7))))))).

Definition second_byte (s2 s3 : Sextet) : byte :=
  let '(_, _, b7, b6, b5, b4) := s2 in
  let '(b3, b2, b1, b0, _, _) := s3 in
  Byte.of_bits (b0, (b1, (b2, (b3, (b4, (b5, (b6, b7))))))).

Definition third_byte (s3 s4 : Sextet) : byte :=
  let '(_, _, _, _, c7, c6) := s3 in
  let '(c5, c4, c3, c2, c1, c0) := s4 in
  Byte.of_bits (c0, (c1, (c2, (c3, (c4, (c5, (c6, c7))))))).

(** Modelled from the spec: [services/audioUtils.uint8ArrayToBase64], the
    [bytesToBase64] of the specification, as the base64 of RFC 4648 that
    [btoa] computes: three bytes become four characters, and a last group
    of one or two bytes is padded with [=]. *)
Fixpoint uint8ArrayToBase64 (bytes : list byte) : string :=
  match bytes with
  | [] => ""
  | [a] =>
      let '(s1, s2, _, _) := sextets a x00 x00 in
      String (encode_sextet s1) (String (encode_sextet s2) "==")
  | [a; b] =>
      let '(s1, s2, s3, _) := sextets a b x00 in
      String (encode_sextet s1)
        (String (encode_sextet s2) (String (encode_sextet s3) "="))
  | a :: b :: c :: rest =>
      let '(s1, s2, s3, s4) := sextets a b c in
      String (encode_sextet s1)
        (String (encode_sextet s2)
           (String (encode_sextet s3)
              (String (encode_sextet s4) (uint8ArrayToBase64 rest))))
  end.

(** Modelled from the spec: [services/audioUtils.base64ToUint8Array], the
    [base64ToBytes] of the specification: the inverse reading, four
    characters at a time; [None] is the exception of [atob] on text that
    is not base64. *)
Fixpoint base64ToUint8Array (base64 : string) : option (list byte) :=
  match base64 with
  | "" => Some []
  | String c1 (String c2 (String c3 (String c4 rest))) =>
      match decode_char c1, decode_char c2 with
      | Some s1, Some s2 =>
          match decode_char c3, decode_char c4 with
          | Some s3, Some s4 =>
              match base64ToUint8Array rest with
              | Some bytes =>
                  Some (first_byte s1 s2 :: second_byte s2 s3
                          :: third_byte s3 s4 :: bytes)
              | None => None
              end
          | Some s3, None =>
              if Ascii.eqb c4 pad && negb (truthy rest)
              then Some [first_byte s1 s2; second_byte s2 s3] else None
          | None, _ =>
              if Ascii.eqb c3 pad && Ascii.eqb c4 pad && negb (truthy rest)
              then Some [first_byte s1 s2] else None
          end
      | _, _ => None
      end
  | _ => None
  end.

End Base64.

(* ------------------------------------------------------------------ *)
(** ** Writing the store *)

Definition with_state (f : State -> State) (st : Store) : Store :=
  {| state := f (state st); refs := refs st; browser := browser st;
     connectionStateWrites := connectionStateWrites st |}.

Definition with_refs (f : Refs -> Refs) (st : Store) : Store :=
  {| state := state st; refs := f (refs st); browser := browser st;
     connectionStateWrites := connectionStateWrites st |}.

Definition with_browser (f : Browser -> Browser) (st : Store) : Store :=
  {| state := state st; refs := refs st; browser := f (browser st);
     connectionStateWrites := connectionStateWrites st |}.

(** The setters of [useState].  An updater function is applied to the live
    value, whatever render the caller belongs to. *)
Definition setConnectionState (c : ConnectionState) (st : Store) : Store :=
  {| state := {| connectionState := c; isMuted := isMuted (state st);
                 isVideoEnabled := isVideoEnabled (state st);
                 messages := messages (state st);
                 currentTranscription := currentTranscription (state st);
                 errorMsg := errorMsg (state st) |};
     refs := refs st; browser := browser st;
     connectionStateWrites := connectionStateWrites st ++ [c] |}.

Definition setIsMuted (b : bool) : Store -> Store :=
  with_state (fun s =>
    {| connectionState := connectionState s; isMuted := b;
       isVideoEnabled := isVideoEnabled s; messages := messages s;
       currentTranscription := currentTranscription s; errorMsg := errorMsg s |}).

Definition setIsVideoEnabled (b : bool) : Store -> Store :=
  with_state (fun s =>
    {| connectionState := connectionState s; isMuted := isMuted s;
       isVideoEnabled := b; messages := messages s;
       currentTranscription := currentTranscription s; errorMsg := errorMsg s |}).

Definition setMessages (f : list Message -> list Message) : Store -> Store :=
  with_state (fun s =>
    {| connectionState := connectionState s; isMuted := isMuted s;
       isVideoEnabled := isVideoEnabled s; messages := f (messages s);
       currentTranscription := currentTranscription s; errorMsg := errorMsg s |}).

Definition setCurrentTranscription (f : string -> string) : Store -> Store :=
  with_state (fun s =>
    {| connectionState := connectionState s; isMuted := isMuted s;
       isVideoEnabled := isVideoEnabled s; messages := messages s;
       currentTranscription := f (currentTranscription s);
       errorMsg := errorMsg s |}).

Definition setErrorMsg (e : option string) : Store -> Store :=
  with_state (fun s =>
    {| connectionState := connectionState s; isMuted := isMuted s;
       isVideoEnabled := isVideoEnabled s; messages := messages s;
       currentTranscription := currentTranscription s; errorMsg := e |}).

(** Assignments to [ref.current]. *)
Definition set_streamRef (v : option nat) : Store -> Store :=
  with_refs (fun r =>
    {| streamRef := v; sessionRef := sessionRef r;
       sessionPromiseRef := sessionPromiseRef r;
       audioContextRef := audioContextRef r;
       inputAudioContextRef := inputAudioContextRef r;
       nextStartTimeRef := nextStartTimeRef r;
       frameIntervalRef := frameIntervalRef r;
       processorRef := processorRef r; sourceRef := sourceRef r |}).

Definition set_sessionRef (v : option nat) : Store -> Store :=
  with_refs (fun r =>
    {| streamRef := streamRef r; sessionRef := v;
       sessionPromiseRef := sessionPromiseRef r;
       audioContextRef := audioContextRef r;
       inputAudioContextRef := inputAudioContextRef r;
       nextStartTimeRef := nextStartTimeRef r;
       frameIntervalRef := frameIntervalRef r;
       processorRef := processorRef r; sourceRef := sourceRef r |}).

Definition set_sessionPromiseRef (v : option nat) : Store -> Store :=
  with_refs (fun r =>
    {| streamRef := streamRef r; sessionRef := sessionRef r;
       sessionPromiseRef := v;
       audioContextRef := audioContextRef r;
       inputAudioContextRef := inputAudioContextRef r;
       nextStartTimeRef := nextStartTimeRef r;
       frameIntervalRef := frameIntervalRef r;
       processorRef := processorRef r; sourceRef := sourceRef r |}).

Definition set_audioContextRef (v : option AudioContextState) : Store -> Store :=
  with_refs (fun r =>
    {| streamRef := streamRef r; sessionRef := sessionRef r;
       sessionPromiseRef := sessionPromiseRef r;
       audioContextRef := v;
       inputAudioContextRef := inputAudioContextRef r;
       nextStartTimeRef := nextStartTimeRef r;
       frameIntervalRef := frameIntervalRef r;
       processorRef := processorRef r; sourceRef := sourceRef r |}).

Definition set_inputAudioContextRef (v : option AudioContextState) : Store -> Store :=
  with_refs (fun r =>
    {| streamRef := streamRef r; sessionRef := sessionRef r;
       sessionPromiseRef := sessionPromiseRef r;
       audioContextRef := audioContextRef r;
       inputAudioContextRef := v;
       nextStartTimeRef := nextStartTimeRef r;
       frameIntervalRef := frameIntervalRef r;
       processorRef := processorRef r; sourceRef := sourceRef r |}).

Definition set_nextStartTimeRef (v : double) : Store -> Store :=
  with_refs (fun r =>
    {| streamRef := streamRef r; sessionRef := sessionRef r;
       sessionPromiseRef := sessionPromiseRef r;
       audioContextRef := audioContextRef r;
       inputAudioContextRef := inputAudioContextRef r;
       nextStartTimeRef := v;
       frameIntervalRef := frameIntervalRef r;
       processorRef := processorRef r; sourceRef := sourceRef r |}).

Definition set_frameIntervalRef (v : option nat) : Store -> Store :=
  with_refs (fun r =>
    {| streamRef := streamRef r; sessionRef := sessionRef r;
       sessionPromiseRef := sessionPromiseRef r;
       audioContextRef := audioContextRef r;
       inputAudioContextRef := inputAudioContextRef r;
       nextStartTimeRef := nextStartTimeRef r;
       frameIntervalRef := v;
       processorRef := processorRef r; sourceRef := sourceRef r |}).

Definition set_processorRef (v : option nat) : Store -> Store :=
  with_refs (fun r =>
    {| streamRef := streamRef r; sessionRef := sessionRef r;
       sessionPromiseRef := sessionPromiseRef r;
       audioContextRef := audioContextRef r;
       inputAudioContextRef := inputAudioContextRef r;
       nextStartTimeRef := nextStartTimeRef r;
       frameIntervalRef := frameIntervalRef r;
       processorRef := v; sourceRef := sourceRef r |}).

Definition set_sourceRef (v : option nat) : Store -> Store :=
  with_refs (fun r =>
    {| streamRef := streamRef r; sessionRef := sessionRef r;
       sessionPromiseRef := sessionPromiseRef r;
       audioContextRef := audioContextRef r;
       inputAudioContextRef := inputAudioContextRef r;
       nextStartTimeRef := nextStartTimeRef r;
       frameIntervalRef := frameIntervalRef r;
       processorRef := processorRef r; sourceRef := v |}).

(** Effects on what lives outside the component. *)
Definition on_streams (f : list bool -> list bool) : Store -> Store :=
  with_browser (fun b =>
    {| streams := f (streams b); transports := transports b;
       audioGraphs := audioGraphs b; intervals := intervals b;
       startCalls := startCalls b; scheduled := scheduled b;
       console := console b |}).

Definition on_transports (f : list Transport -> list Transport) : Store -> Store :=
  with_browser (fun b =>
    {| streams := streams b; transports := f (transports b);
       audioGraphs := audioGraphs b; intervals := intervals b;
       startCalls := startCalls b; scheduled := scheduled b;
       console := console b |}).

Definition on_audioGraphs (f : list AudioGraph -> list AudioGraph) : Store -> Store :=
  with_browser (fun b =>
    {| streams := streams b; transports := transports b;
       audioGraphs := f (audioGraphs b); intervals := intervals b;
       startCalls := startCalls b; scheduled := scheduled b;
       console := console b |}).

Definition on_intervals (f : list Interval -> list Interval) : Store -> Store :=
  with_browser (fun b =>
    {| streams := streams b; transports := transports b;
       audioGraphs := audioGraphs b; intervals := f (intervals b);
       startCalls := startCalls b; scheduled := scheduled b;
       console := console b |}).

Definition on_startCalls (f : list StartCall -> list StartCall) : Store -> Store :=
  with_browser (fun b =>
    {| streams := streams b; transports := transports b;
       audioGraphs := audioGraphs b; intervals := intervals b;
       startCalls := f (startCalls b); scheduled := scheduled b;
       console := console b |}).

Definition on_scheduled (f : list (double * double) -> list (double * double)) : Store -> Store :=
  with_browser (fun b =>
    {| streams := streams b; transports := transports b;
       audioGraphs := audioGraphs b; intervals := intervals b;
       startCalls := startCalls b; scheduled := f (scheduled b);
       console := console b |}).

Definition console_ (l : Level) (text : string) : Store -> Store :=
  with_browser (fun b =>
    {| streams := streams b; transports := transports b;
       audioGraphs := audioGraphs b; intervals := intervals b;
       startCalls := startCalls b; scheduled := scheduled b;
       console := console b ++ [(l, text)] |}).

(* ------------------------------------------------------------------ *)
(** ** Control: statements that may throw

    A statement changes the store and either completes or throws; what it
    wrote before throwing stays written. *)

Inductive Completion (A : Type) :=
| Normal (a : A)
| Throw (message : string).
Arguments Normal {A} a.
Arguments Throw {A} message.

Definition Js (A : Type) : Type := Store -> Store * Completion A.

#[export] Instance Js_ret : MRet Js := fun A a st => (st, Normal a).

#[export] Instance Js_bind : MBind Js := fun A B k c st =>
  match c st with
  | (st', Normal a) => k a st'
  | (st', Throw m) => (st', Throw m)
  end.

Definition throw {A : Type} (message : string) : Js A :=
  fun st => (st, Throw message).

(** [try { body } catch (err) { handler }], with [err.message] for [err]. *)
Definition try_catch {A : Type} (body : Js A) (handler : string -> Js A) : Js A :=
  fun st =>
    match body st with
    | (st', Throw m) => handler m st'
    | done => done
    end.

Definition get : Js Store := fun st => (st, Normal st).

(** A statement that cannot throw. *)
Definition exec (f : Store -> Store) : Js unit := fun st => (f st, Normal tt).

Definition when (b : bool) (c : Js unit) : Js unit := if b then c else mret tt.

(** The store a statement leaves, whether it completed or threw. *)
Definition after {A : Type} (c : Js A) (st : Store) : Store := fst (c st).

(* ------------------------------------------------------------------ *)
(** ** The browser and the SDK, as far as the component uses them *)

Definition is_set {A : Type} (o : option A) : bool :=
  match o with Some _ => true | None => false end.

(** [track.stop()] on every track of a stream. *)
Definition stop_tracks (stream : nat) : Store -> Store :=
  on_streams (<[stream := false]>).

Definition clearInterval (i : nat) : Store -> Store :=
  on_intervals (alter (fun iv =>
    {| iv_isVideoEnabled := iv_isVideoEnabled iv; iv_active := false |}) i).

Definition disconnect_processor (g : nat) : Store -> Store :=
  on_audioGraphs (alter (fun a =>
    {| ag_stream := ag_stream a; ag_isMuted := ag_isMuted a;
       ag_source_connected := ag_source_connected a;
       ag_processor_connected := false |}) g).

Definition disconnect_source (g : nat) : Store -> Store :=
  on_audioGraphs (alter (fun a =>
    {| ag_stream := ag_stream a; ag_isMuted := ag_isMuted a;
       ag_source_connected := false;
       ag_processor_connected := ag_processor_connected a |}) g).

Definition set_readyState (s : ReadyState) (tr : Transport) : Transport :=
  {| tr_render := tr_render tr; tr_stream := tr_stream tr;
     tr_readyState := s; tr_resolved := tr_resolved tr;
     tr_thens := tr_thens tr; tr_sent := tr_sent tr |}.

Definition set_resolved (tr : Transport) : Transport :=
  {| tr_render := tr_render tr; tr_stream := tr_stream tr;
     tr_readyState := tr_readyState tr; tr_resolved := true;
     tr_thens := []; tr_sent := tr_sent tr |}.

Definition add_then (m : Media) (complaint : string) (tr : Transport) : Transport :=
  {| tr_render := tr_render tr; tr_stream := tr_stream tr;
     tr_readyState := tr_readyState tr; tr_resolved := tr_resolved tr;
     tr_thens := tr_thens tr ++ [(m, complaint)]; tr_sent := tr_sent tr |}.

Definition add_sent (m : Media) (tr : Transport) : Transport :=
  {| tr_render := tr_render tr; tr_stream := tr_stream tr;
     tr_readyState := tr_readyState tr; tr_resolved := tr_resolved tr;
     tr_thens := tr_thens tr; tr_sent := tr_sent tr ++ [m] |}.

Definition is_open (s : ReadyState) : bool :=
  match s with Open => true | _ => false end.

(** A transport is active from [connect] until it is closed. *)
Definition is_active (tr : Transport) : bool :=
  match tr_readyState tr with Closed => false | _ => true end.

(** [session.close()]; whether it throws is the SDK's business. *)
Definition close (close_throws : bool) (t : nat) : Js unit :=
  if close_throws then throw "close failed"
  else exec (on_transports (alter (set_readyState Closed) t)).

(** [session.sendRealtimeInput({media})]: it puts the chunk on an open
    transport and throws on any other. *)
Definition sendRealtimeInput (t : nat) (media : Media) : Js unit :=
  st ← get;
  match transports (browser st) !! t with
  | Some tr =>
      if is_open (tr_readyState tr)
      then exec (on_transports (alter (add_sent media) t))
      else throw "WebSocket is not open"
  | None => throw "WebSocket is not open"
  end.

(** The callback of the two [sessionPromiseRef.current?.then(...)]:
    [try { session.sendRealtimeInput(...) } catch (error) { console.warn(...) }]. *)
Definition send_or_warn (t : nat) (job : Media * string) : Js unit :=
  try_catch (sendRealtimeInput t (fst job))
            (fun _ => exec (console_ warn (snd job))).

(** [sessionPromiseRef.current?.then(callback)]: the callback runs at once
    on a resolved promise and waits for the resolution otherwise. *)
Definition then_send (media : Media) (complaint : string) : Js unit :=
  st ← get;
  match sessionPromiseRef (refs st) with
  | None => mret tt
  | Some t =>
      match transports (browser st) !! t with
      | Some tr =>
          if tr_resolved tr then send_or_warn t (media, complaint)
          else exec (on_transports (alter (add_then media complaint) t))
      | None => mret tt
      end
  end.

Fixpoint run_all (jobs : list (Js unit)) : Js unit :=
  match jobs with
  | [] => mret tt
  | j :: jobs' => j;; run_all jobs'
  end.

(* ------------------------------------------------------------------ *)
(** ** src/components/Interpreter.tsx *)

Section Interpreter.

(** [decodeAudioData(bytes, ctx)] of [services/audioUtils], which is not
    among the sources: the duration in seconds of the [AudioBuffer] it
    returns, [None] when it throws. *)
Variable decodeAudioData : list byte -> option double.

Definition initializeAudioContexts : Js unit :=
  st ← get;
  when (negb (is_set (audioContextRef (refs st))))
       (exec (set_audioContextRef (Some suspended)));;
  st ← get;
  when (negb (is_set (inputAudioContextRef (refs st))))
       (exec (set_inputAudioContextRef (Some suspended))).

Definition stopMediaProcessing : Js unit :=
  st ← get;
  match frameIntervalRef (refs st) with
  | Some i => exec (clearInterval i);; exec (set_frameIntervalRef None)
  | None => mret tt
  end;;
  st ← get;
  match processorRef (refs st) with
  | Some g => exec (disconnect_processor g);; exec (set_processorRef None)
  | None => mret tt
  end;;
  st ← get;
  match sourceRef (refs st) with
  | Some g => exec (disconnect_source g);; exec (set_sourceRef None)
  | None => mret tt
  end.

(** [stopSession] is declared [async] and awaits nothing: a call runs to
    its end before the caller continues. *)
Definition stopSession (close_throws : bool) : Js unit :=
  st ← get;
  match streamRef (refs st) with
  | Some stream => exec (stop_tracks stream);; exec (set_streamRef None)
  | None => mret tt
  end;;
  stopMediaProcessing;;
  st ← get;
  match sessionRef (refs st) with
  | Some session =>
      try_catch (close close_throws session)
                (fun _ => exec (console_ warn "Failed to close session:"));;
      exec (set_sessionRef None)
  | None => mret tt
  end;;
  exec (setConnectionState DISCONNECTED);;
  (* Note: We intentionally do NOT clear messages here so the user can
     read the history after stopping. *)
  exec (setCurrentTranscription (fun _ => "")).

(** [processor.onaudioprocess], with the [isMuted] of the render whose
    [startAudioInput] installed it.  [pcm16] is the block as bytes:
    [new Uint8Array(float32ToPCM16(inputData).buffer)]. *)
Definition onaudioprocess (isMuted : bool) (pcm16 : list byte) : Js unit :=
  if isMuted then mret tt
  else
    let base64 := Base64.uint8ArrayToBase64 pcm16 in
    then_send {| mimeType := "audio/pcm;rate=16000"; data := base64 |}
              "Error sending audio input:".

Definition startAudioInput (r : Render) (stream : nat) : Js unit :=
  st ← get;
  if negb (is_set (inputAudioContextRef (refs st))) then mret tt
  else
    let g := length (audioGraphs (browser st)) in
    exec (on_audioGraphs (fun l => (l ++
      [{| ag_stream := stream; ag_isMuted := r_isMuted r;
          ag_source_connected := true;
          ag_processor_connected := true |}])%list));;
    exec (set_sourceRef (Some g));;
    exec (set_processorRef (Some g)).

(** The callback of [window.setInterval], with the [isVideoEnabled] of the
    render whose [startVideoStreaming] installed it; the video and canvas
    elements are there while the component is mounted.  [blob] is the
    base64 of what [canvas.toBlob] delivers, [None] when the canvas has
    no 2d context or the blob is null. *)
Definition interval_callback (isVideoEnabled : bool) (blob : option string) : Js unit :=
  if negb isVideoEnabled then mret tt
  else
    match blob with
    | Some base64 =>
        then_send {| mimeType := "image/jpeg"; data := base64 |}
                  "Error sending video frame:"
    | None => mret tt
    end.

Definition startVideoStreaming (r : Render) : Js unit :=
  st ← get;
  match frameIntervalRef (refs st) with
  | Some i => exec (clearInterval i)
  | None => mret tt
  end;;
  st ← get;
  let i := length (intervals (browser st)) in
  exec (on_intervals (fun l => (l ++
    [{| iv_isVideoEnabled := r_isVideoEnabled r; iv_active := true |}])%list));;
  exec (set_frameIntervalRef (Some i)).

(** [handleServerMessage] of render [r].  [currentTime] is
    [ctx.currentTime] and [now] the wall clock of [Date.now()] and
    [new Date()].  The one [await], on [decodeAudioData], is taken in the
    same step: the cursor is read and written after it, in one go. *)
Definition handleServerMessage (r : Render) (message : LiveServerMessage)
    (currentTime : double) (now : Z) : Js unit :=
  st ← get;
  when (truthy_opt (audioData message) && is_set (audioContextRef (refs st)))
    (bytes ← match Base64.base64ToUint8Array (default "" (audioData message)) with
             | Some bytes => mret bytes
             | None => throw "InvalidCharacterError"
             end;
     duration ← match decodeAudioData bytes with
                | Some duration => mret duration
                | None => throw "RangeError"
                end;
     st ← get;
     let startTime := Math_max currentTime (nextStartTimeRef (refs st)) in
     exec (on_scheduled (fun l => (l ++ [(startTime, duration)])%list));;
     exec (set_nextStartTimeRef (double_add startTime duration)));;
  let outputTranscript := outputTranscript message in
  let inputTranscript := inputTranscript message in
  when (truthy_opt outputTranscript || truthy_opt inputTranscript)
    (when (truthy_opt outputTranscript)
       (exec (setCurrentTranscription
                (fun prev => prev ++ default "" outputTranscript))));;
  when (turnComplete message)
    (let finalTranscript := r_currentTranscription r in
     when (truthy (trim finalTranscript))
       (exec (setMessages (fun prev => (prev ++
          [{| id := toString now; role := model; text := finalTranscript;
              timestamp := now; isFinal := None |}])%list));;
        exec (setCurrentTranscription (fun _ => "")))).

(** The callbacks handed to [ai.live.connect] by the [startSession] of
    render [r], after it obtained [stream]. *)
Definition onopen (r : Render) (stream : nat) : Js unit :=
  exec (console_ log "Gemini Live Session Opened");;
  exec (setConnectionState CONNECTED);;
  startAudioInput r stream;;
  startVideoStreaming r.

(** [async (message) => { handleServerMessage(message); }]: the promise of
    [handleServerMessage] is dropped, so what it throws reaches nobody. *)
Definition onmessage (r : Render) (message : LiveServerMessage)
    (currentTime : double) (now : Z) : Js unit :=
  exec (after (handleServerMessage r message currentTime now)).

Definition onclose : Js unit :=
  exec (console_ log "Gemini Live Session Closed");;
  exec (setConnectionState DISCONNECTED);;
  stopMediaProcessing.

Definition onerror (close_throws : bool) : Js unit :=
  exec (console_ error "Gemini Live Error");;
  exec (setConnectionState ERROR);;
  exec (setErrorMsg (Some "Connection error occurred. Please try again."));;
  stopSession close_throws.

(** The [catch] block of [startSession]. *)
Definition startSession_catch (close_throws : bool) (err_message : string) : Js unit :=
  exec (console_ error "Failed to start session:");;
  exec (setConnectionState ERROR);;
  exec (setErrorMsg
          (Some (or_else err_message
                   "Failed to access camera/microphone or connect.")));;
  stopSession close_throws.

Definition resume_if_suspended (ctx : option AudioContextState) : option AudioContextState :=
  match ctx with
  | Some suspended => Some running
  | other => other
  end.

Definition await_at (call : nat) (p : AwaitPoint) : Store -> Store :=
  on_startCalls (alter (fun c =>
    {| sc_render := sc_render c; sc_apiKey := sc_apiKey c; sc_await := p |}) call).

(** [startSession] of render [r], from the call to its first wait on the
    browser, [await navigator.mediaDevices.getUserMedia(...)].  The two
    [await ...resume()] before it are taken in the same step. *)
Definition startSession (r : Render) (API_KEY : option string)
    (close_throws : bool) : Js unit :=
  try_catch
    (exec (setErrorMsg None);;
     let apiKey := default "" API_KEY in
     when (negb (truthy apiKey))
       (throw "API Key is missing. Please check your deployment settings or .env file.");;
     exec (setConnectionState CONNECTING);;
     initializeAudioContexts;;
     st ← get;
     exec (set_audioContextRef (resume_if_suspended (audioContextRef (refs st))));;
     st ← get;
     exec (set_inputAudioContextRef
             (resume_if_suspended (inputAudioContextRef (refs st))));;
     exec (on_startCalls (fun l => (l ++
       [{| sc_render := r; sc_apiKey := apiKey;
           sc_await := AwaitGetUserMedia |}])%list)))
    (startSession_catch close_throws).

Inductive Settlement := Resolved | Rejected (message : string).

(** [startSession], from the settlement of [getUserMedia] to
    [await videoRef.current.play()]. *)
Definition startSession_after_getUserMedia (call : nat) (s : Settlement)
    (close_throws : bool) : Js unit :=
  st ← get;
  match sc_await <$> startCalls (browser st) !! call with
  | Some AwaitGetUserMedia =>
      exec (await_at call Settled);;
      try_catch
        (match s with
         | Rejected message => throw message
         | Resolved =>
             let stream := length (streams (browser st)) in
             exec (on_streams (fun l => (l ++ [true])%list));;
             exec (set_streamRef (Some stream));;
             exec (await_at call (AwaitPlay stream))
         end)
        (startSession_catch close_throws)
  | _ => mret tt
  end.

(** [startSession], from the settlement of [play()] to its end: the call
    of [ai.live.connect], whose promise goes to [sessionPromiseRef] and
    gets [session => { sessionRef.current = session }] as reaction. *)
Definition startSession_after_play (call : nat) (s : Settlement)
    (close_throws : bool) : Js unit :=
  st ← get;
  match startCalls (browser st) !! call with
  | Some {| sc_render := r; sc_await := AwaitPlay stream |} =>
      exec (await_at call Settled);;
      try_catch
        (match s with
         | Rejected message => throw message
         | Resolved =>
             let sessionPromise := length (transports (browser st)) in
             exec (on_transports (fun l => (l ++
               [{| tr_render := r; tr_stream := stream;
                   tr_readyState := Handshaking; tr_resolved := false;
                   tr_thens := []; tr_sent := [] |}])%list));;
             exec (set_sessionPromiseRef (Some sessionPromise))
         end)
        (startSession_catch close_throws)
  | _ => mret tt
  end.

(** The promise of [connect] resolves: its reactions run in the order
    they were attached, [sessionRef.current = session] first. *)
Definition sessionPromise_resolves (t : nat) : Js unit :=
  st ← get;
  match transports (browser st) !! t with
  | Some tr =>
      exec (on_transports (alter set_resolved t));;
      exec (set_sessionRef (Some t));;
      run_all (send_or_warn t <$> tr_thens tr)
  | None => mret tt
  end.

Definition toggleMute (r : Render) : Js unit :=
  exec (setIsMuted (negb (r_isMuted r))).

Definition toggleVideo (r : Render) : Js unit :=
  exec (setIsVideoEnabled (negb (r_isVideoEnabled r))).

End Interpreter.

(* ------------------------------------------------------------------ *)
(** ** The event loop

    Everything the component does happens in one of these callbacks, each
    run to completion before the next.  A click runs the handler of the
    current render, if the button is on the page; a callback of a transport,
    an audio graph or an interval runs with the render it was created in. *)

Inductive Event :=
| click_startSession (API_KEY : option string) (close_throws : bool)
| click_stopSession (close_throws : bool)
| click_toggleMute
| click_toggleVideo
| getUserMedia_settles (call : nat) (s : Settlement) (close_throws : bool)
| play_settles (call : nat) (s : Settlement) (close_throws : bool)
| transport_opens (t : nat)
| connect_resolves (t : nat)
| transport_message (t : nat) (message : LiveServerMessage)
                    (currentTime : double) (now : Z)
| transport_closes (t : nat)
| transport_errors (t : nat) (close_throws : bool)
| audioprocess (g : nat) (pcm16 : list byte)
| interval_fires (i : nat) (blob : option string).

Definition is_CONNECTED (c : ConnectionState) : bool :=
  match c with CONNECTED => true | _ => false end.

(** "Start Interpreter" is in the control bar unless the state is
    [CONNECTED]; "Start Session to activate" is in the overlay, which shows
    when the state is not [CONNECTED] or the video is disabled, unless the
    state is [CONNECTING]. *)
Definition start_button_rendered (s : State) : bool :=
  negb (is_CONNECTED (connectionState s))
  || ((negb (is_CONNECTED (connectionState s)) || negb (isVideoEnabled s))
      && negb (match connectionState s with CONNECTING => true | _ => false end)).

(** "End Session" and the two toggles show when the state is [CONNECTED]. *)
Definition stop_button_rendered (s : State) : bool :=
  is_CONNECTED (connectionState s).

Section EventLoop.

Variable decodeAudioData : list byte -> option double.

Definition handler (e : Event) : Js unit :=
  st ← get;
  match e with
  | click_startSession API_KEY close_throws =>
      when (start_button_rendered (state st))
           (startSession (render st) API_KEY close_throws)
  | click_stopSession close_throws =>
      when (stop_button_rendered (state st)) (stopSession close_throws)
  | click_toggleMute =>
      when (stop_button_rendered (state st)) (toggleMute (render st))
  | click_toggleVideo =>
      when (stop_button_rendered (state st)) (toggleVideo (render st))
  | getUserMedia_settles call s close_throws =>
      startSession_after_getUserMedia call s close_throws
  | play_settles call s close_throws =>
      startSession_after_play call s close_throws
  | transport_opens t =>
      match transports (browser st) !! t with
      | Some {| tr_render := r; tr_stream := stream;
                tr_readyState := Handshaking |} =>
          exec (on_transports (alter (set_readyState Open) t));;
          onopen r stream
      | _ => mret tt
      end
  | connect_resolves t =>
      match transports (browser st) !! t with
      | Some {| tr_readyState := Open; tr_resolved := false |} =>
          sessionPromise_resolves t
      | _ => mret tt
      end
  | transport_message t message currentTime now =>
      match transports (browser st) !! t with
      | Some {| tr_render := r; tr_readyState := Open |} =>
          onmessage decodeAudioData r message currentTime now
      | _ => mret tt
      end
  | transport_closes t =>
      match transports (browser st) !! t with
      | Some tr =>
          exec (on_transports (alter (set_readyState Closed) t));;
          onclose
      | None => mret tt
      end
  | transport_errors t close_throws =>
      match transports (browser st) !! t with
      | Some tr =>
          if is_active tr then
            exec (on_transports (alter (set_readyState Closed) t));;
            onerror close_throws
          else mret tt
      | None => mret tt
      end
  | audioprocess g pcm16 =>
      match audioGraphs (browser st) !! g with
      | Some a =>
          when (ag_source_connected a && ag_processor_connected a)
               (onaudioprocess (ag_isMuted a) pcm16)
      | None => mret tt
      end
  | interval_fires i blob =>
      match intervals (browser st) !! i with
      | Some iv =>
          when (iv_active iv) (interval_callback (iv_isVideoEnabled iv) blob)
      | None => mret tt
      end
  end.

Definition step (st : Store) (e : Event) : Store := after (handler e) st.

Definition run (events : list Event) (st : Store) : Store :=
  fold_left step events st.

End EventLoop.

(** Modelled from the spec: [services/audioUtils.decodeAudioData], the
    [decodeAudioFrame] of the specification.  The bytes are 16-bit mono
    samples at [sampleRate]; their number must be even, and the duration
    of the frame is the number of its samples divided by [sampleRate]. *)
Definition decodeAudioFrame (sampleRate : positive) (bytes : list byte) : option double :=
  if Nat.even (length bytes)
  then Some (double_div (N.of_nat (length bytes / 2)) sampleRate)
  else None.

(* ------------------------------------------------------------------ *)
(** ** Inbound events and a session to receive them *)

(** The three kinds of inbound event, as server messages. *)
Definition AudioFrame (data : string) : LiveServerMessage :=
  {| audioData := Some data; outputTranscript := None;
     inputTranscript := None; turnComplete := false |}.

Definition TranscriptDelta (text : string) : LiveServerMessage :=
  {| audioData := None; outputTranscript := Some text;
     inputTranscript := None; turnComplete := false |}.

Definition TurnComplete : LiveServerMessage :=
  {| audioData := None; outputTranscript := None;
     inputTranscript := None; turnComplete := true |}.

(** What [handleServerMessage] gets out of the audio of a message. *)
Definition decoded (decodeAudioData : list byte -> option double) (data : string)
  : option double :=
  Base64.base64ToUint8Array data ≫= decodeAudioData.

(** Frames at 24 kHz, for the runs below. *)
Definition decode24k : list byte -> option double := decodeAudioFrame 24000.

(** A user with a key clicks "Start Interpreter" on the freshly mounted
    component and grants the devices; the transport opens. *)
Definition connect : list Event :=
  [ click_startSession (Some "key") false;
    getUserMedia_settles 0 Resolved false;
    play_settles 0 Resolved false;
    transport_opens 0;
    connect_resolves 0 ].

(** Four samples, two samples and one sample of silence, and three bytes
    that are no 16-bit samples. *)
Definition four_samples : string :=
  Eval vm_compute in Base64.uint8ArrayToBase64 (repeat x00 8).

Definition one_sample : string :=
  Eval vm_compute in Base64.uint8ArrayToBase64 (repeat x00 2).

Definition two_samples : string :=
  Eval vm_compute in Base64.uint8ArrayToBase64 (repeat x00 4).

Definition malformed : string :=
  Eval vm_compute in Base64.uint8ArrayToBase64 (repeat x00 3).

(** A frame on the first transport, at time 0 of the audio clock. *)
Definition frame (now : Z) (data : string) : Event :=
  transport_message 0 (AudioFrame data) 0 now.

Definition sent_on (t : nat) (st : Store) : list Media :=
  default [] (tr_sent <$> transports (browser st) !! t).

Definition active_transports (st : Store) : nat :=
  length (filter (fun tr => is_active tr = true) (transports (browser st))).

(* ------------------------------------------------------------------ *)
(** ** The notions the properties are stated with *)

(** A statement preserves [I] when it leaves a store in [I] whenever it
    starts in one, whether it completes or throws. *)
Definition preserves (I : Store -> Prop) {A : Type} (c : Js A) : Prop :=
  forall st, I st -> I (fst (c st)).

Definition missing_key_message : string :=
  "API Key is missing. Please check your deployment settings or .env file.".

Definition cursor (st : Store) : double := nextStartTimeRef (refs st).

(** A frame scheduled after another starts no earlier than the other
    started, and no earlier than the sum the code makes of the other's
    start and duration, which is a double. *)
Definition gapless (l : list (double * double)) : Prop :=
  forall (i j : nat) (s1 d1 s2 d2 : double),
    (i < j)%nat ->
    l !! i = Some (s1, d1) -> l !! j = Some (s2, d2) ->
    double_le s1 s2 /\ double_le (double_add s1 d1) s2.

(** No two playback intervals [[start, start + duration)] overlap, the
    sum being that of the two numbers: a frame scheduled after another
    starts no earlier than the other ends. *)
Definition no_overlap (l : list (double * double)) : Prop :=
  forall (i j : nat) (s1 d1 s2 d2 : double),
    (i < j)%nat ->
    l !! i = Some (s1, d1) -> l !! j = Some (s2, d2) ->
    (units s1 + units d1 <= units s2)%N.

(** The cursor is at or past the sum of everything scheduled. *)
Definition cursor_covers (l : list (double * double)) (c : double) : Prop :=
  Forall (fun f => double_le (double_add (fst f) (snd f)) c) l.

(** The state a handler leaves is not [ERROR]. *)
Definition not_ERROR (st : Store) : Prop :=
  connectionState (state st) <> ERROR.

Definition playback_ok (st : Store) : Prop :=
  gapless (scheduled (browser st)) /\ cursor_covers (scheduled (browser st)) (cursor st).

(** What [handleServerMessage] puts into a message. *)
Definition finalized_turn (m : Message) : Prop :=
  role m = model /\ blank (text m) = false /\ isFinal m = None.

(** The texts of a list, one after the other. *)
Definition concat_all (texts : list string) : string :=
  foldr append "" texts.

(** A message with another input transcript. *)
Definition with_inputTranscript (it : option string) (m : LiveServerMessage)
  : LiveServerMessage :=
  {| audioData := audioData m; outputTranscript := outputTranscript m;
     inputTranscript := it; turnComplete := turnComplete m |}.

(** The deltas of a list of texts, each with its times, on transport [t]. *)
Definition deltas (t : nat) (texts : list (string * double * Z)) : list Event :=
  (fun x => transport_message t (TranscriptDelta x.1.1) x.1.2 x.2) <$> texts.

(** The only interval that may be active is the one [frameIntervalRef]
    names. *)
Definition one_timer (l : list Interval) (ref : option nat) : Prop :=
  forall i iv, l !! i = Some iv -> iv_active iv = true -> ref = Some i.

Definition timer_ok (st : Store) : Prop :=
  one_timer (intervals (browser st)) (frameIntervalRef (refs st)).

(** The schedule has kept what [before] holds and the cursor has not gone
    back behind [c]. *)
Definition playback_after (before : list (double * double)) (c : double) (st : Store) : Prop :=
  before `prefix_of` scheduled (browser st)
  /\ double_le c (nextStartTimeRef (refs st)).

(** Some transport is open. *)
Definition some_open (l : list Transport) : Prop :=
  exists t tr, l !! t = Some tr /\ tr_readyState tr = Open.

Definition open_st (st : Store) : Prop := some_open (transports (browser st)).

(** The state [CONNECTED] is shown only while some transport is open. *)
Definition connected_ok (st : Store) : Prop :=
  connectionState (state st) = CONNECTED -> open_st st.

(** Graph [g], interval [i] and transport [t] are there, with these
    captured values. *)
Definition captures (g : nat) (muted : bool) (i : nat) (video : bool)
    (t : nat) (r : Render) (st : Store) : Prop :=
  ag_isMuted <$> audioGraphs (browser st) !! g = Some muted
  /\ iv_isVideoEnabled <$> intervals (browser st) !! i = Some video
  /\ tr_render <$> transports (browser st) !! t = Some r.

(** Both audio contexts are there and running. *)
Definition contexts_running (st : Store) : Prop :=
  audioContextRef (refs st) = Some running
  /\ inputAudioContextRef (refs st) = Some running.

(** The chunk [onaudioprocess] makes of a block. *)
Definition audio_chunk (pcm16 : list byte) : Media :=
  {| mimeType := "audio/pcm;rate=16000";
     data := Base64.uint8ArrayToBase64 pcm16 |}.

(* ================================================================== *)
(** * Properties *)

(* ------------------------------------------------------------------ *)
(** ** Trimming *)

Lemma dropWhite_nil (l : list (N * string)) :
  dropWhite l = [] <-> forallb white l = true.
Proof.
  induction l as [|c l IH]; cbn [dropWhite forallb]; [tauto|].
  destruct (white c); cbn [andb]; [exact IH|]. split; discriminate.
Qed.

Lemma dropWhite_white (l : list (N * string)) :
  forallb white (dropWhite l) = true -> dropWhite l = [].
Proof.
  induction l as [|c l IH]; cbn [dropWhite]; [reflexivity|].
  destruct (white c) eqn:E; [exact IH|]. cbn [forallb]. rewrite E. discriminate.
Qed.

Lemma forallb_rev {A} (p : A -> bool) (l : list A) :
  forallb p (rev l) = forallb p l.
Proof.
  induction l as [|a l IH]; cbn; [reflexivity|].
  rewrite forallb_app, IH. cbn. rewrite andb_true_r. apply andb_comm.
Qed.

Lemma Forall_dropWhite {P : N * string -> Prop} (l : list (N * string)) :
  Forall P l -> Forall P (dropWhite l).
Proof.
  induction 1 as [|c l H F IH]; cbn [dropWhite]; [constructor|].
  destruct (white c); [exact IH | constructor; assumption].
Qed.

(** Every character takes at least one byte. *)
Lemma codePoints_not_empty (s : string) :
  Forall (fun c => snd c <> "") (codePoints s).
Proof.
  enough (forall n s, (String.length s <= n)%nat ->
           Forall (fun c => snd c <> "") (codePoints s)) as H
    by (apply (H (String.length s)); lia).
  clear s. intros n. induction n as [|n IH]; intros s Hn.
  - destruct s; [constructor | cbn in Hn; lia].
  - destruct s as [|b1 s1]; [constructor|]. cbn in Hn.
    assert (Forall (fun c => snd c <> "") (codePoints s1)) as H1 by (apply IH; lia).
    cbn [codePoints].
    destruct (_ <? _)%N; [constructor; [discriminate | exact H1]|].
    destruct s1 as [|b2 s2]; [constructor; [discriminate | constructor]|].
    cbn in Hn.
    assert (Forall (fun c => snd c <> "") (codePoints s2)) as H2 by (apply IH; lia).
    destruct (continuation b2); [|constructor; [discriminate | exact H1]].
    destruct (_ && _); [constructor; [discriminate | exact H2]|].
    destruct s2 as [|b3 s3]; [constructor; [discriminate | exact H1]|].
    cbn in Hn.
    assert (Forall (fun c => snd c <> "") (codePoints s3)) as H3 by (apply IH; lia).
    destruct (continuation b3); [|constructor; [discriminate | exact H1]].
    destruct (_ && _); constructor; try discriminate; assumption.
Qed.

Lemma join_empty (l : list (N * string)) :
  Forall (fun c => snd c <> "") l -> join l = "" -> l = [].
Proof.
  destruct l as [|[n s] l]; [reflexivity|].
  intros F. inversion F as [|? ? H _]; subst.
  cbn in *. destruct s; [congruence | discriminate].
Qed.

(** Each of the code points of [WhiteSpace] and [LineTerminator] is read
    back from its UTF-8 form, whatever follows it. *)
Lemma codePoints_white_space (c : N) (s : string) :
  isWhiteSpace c = true ->
  codePoints (encode c ++ s) = (c, encode c) :: codePoints s.
Proof.
  unfold isWhiteSpace. intros H. apply existsb_exists in H as (c' & Hin & E).
  apply N.eqb_eq in E. subst c'. cbn in Hin.
  repeat (destruct Hin as [<- | Hin]; [reflexivity|]). destruct Hin.
Qed.

(** So [trim] strips every one of them, and a string of them is blank. *)
Lemma trim_white_space (c : N) (s : string) :
  isWhiteSpace c = true -> trim (encode c ++ s) = trim s.
Proof.
  intros H. unfold trim. rewrite codePoints_white_space by exact H.
  cbn [dropWhite]. change (white (c, encode c)) with (isWhiteSpace c).
  rewrite H. reflexivity.
Qed.

Lemma blank_white_space (c : N) (s : string) :
  isWhiteSpace c = true -> blank (encode c ++ s) = blank s.
Proof.
  intros H. unfold blank. rewrite codePoints_white_space by exact H.
  cbn [forallb]. change (white (c, encode c)) with (isWhiteSpace c).
  rewrite H. reflexivity.
Qed.

(** [trim] leaves nothing exactly of the strings that are empty or white
    space only. *)
Lemma trim_blank (s : string) : trim s = "" <-> blank s = true.
Proof.
  unfold trim, blank. split.
  - intros H. apply join_empty in H.
    + apply (f_equal (@rev _)) in H. rewrite rev_involutive in H. cbn in H.
      apply dropWhite_nil in H. rewrite forallb_rev in H.
      apply dropWhite_white in H. apply dropWhite_nil. exact H.
    + apply Forall_rev, Forall_dropWhite, Forall_rev, Forall_dropWhite,
        codePoints_not_empty.
  - intros H. apply dropWhite_nil in H. rewrite H. reflexivity.
Qed.

(* ------------------------------------------------------------------ *)
(** ** The transport encoding *)

Module Base64Facts.
Import Base64.

Lemma decode_encode_sextet (s : Sextet) : decode_char (encode_sextet s) = Some s.
Proof.
  destruct s as [[[[[b5 b4] b3] b2] b1] b0].
  destruct b5, b4, b3, b2, b1, b0; vm_compute; reflexivity.
Qed.

Lemma decode_pad : decode_char "="%char = None.
Proof. vm_compute; reflexivity. Qed.

Lemma bytes_of_sextets (a b c : byte) :
  let '(s1, s2, s3, s4) := sextets a b c in
  first_byte s1 s2 = a /\ second_byte s2 s3 = b /\ third_byte s3 s4 = c.
Proof.
  unfold sextets.
  destruct (Byte.to_bits a) as [a0 [a1 [a2 [a3 [a4 [a5 [a6 a7]]]]]]] eqn:Ea.
  destruct (Byte.to_bits b) as [b0 [b1 [b2 [b3 [b4 [b5 [b6 b7]]]]]]] eqn:Eb.
  destruct (Byte.to_bits c) as [c0 [c1 [c2 [c3 [c4 [c5 [c6 c7]]]]]]] eqn:Ec.
  cbn [first_byte second_byte third_byte].
  rewrite <- Ea, <- Eb, <- Ec.
  repeat split; apply Byte.of_bits_to_bits.
Qed.

(** The round trip, by groups of three bytes. *)
Lemma roundtrip_upto (n : nat) :
  forall bytes : list byte,
    (length bytes <= n)%nat ->
    base64ToUint8Array (uint8ArrayToBase64 bytes) = Some bytes.
Proof.
  induction n as [|n IH]; intros bytes Hn.
  - destruct bytes; [reflexivity | simpl in Hn; lia].
  - destruct bytes as [|a [|b [|c rest]]].
    + reflexivity.
    + pose proof (bytes_of_sextets a x00 x00) as H.
      cbn [uint8ArrayToBase64].
      destruct (sextets a x00 x00) as [[[s1 s2] s3] s4].
      destruct H as (Ha & _ & _).
      cbn [base64ToUint8Array].
      rewrite !decode_encode_sextet, decode_pad.
      cbn. now rewrite Ha.
    + pose proof (bytes_of_sextets a b x00) as H.
      cbn [uint8ArrayToBase64].
      destruct (sextets a b x00) as [[[s1 s2] s3] s4].
      destruct H as (Ha & Hb & _).
      cbn [base64ToUint8Array].
      rewrite !decode_encode_sextet, decode_pad.
      cbn. now rewrite Ha, Hb.
    + pose proof (bytes_of_sextets a b c) as H.
      cbn [uint8ArrayToBase64].
      destruct (sextets a b c) as [[[s1 s2] s3] s4].
      destruct H as (Ha & Hb & Hc).
      cbn [base64ToUint8Array].
      rewrite !decode_encode_sextet.
      rewrite IH by (simpl in Hn; lia).
      now rewrite Ha, Hb, Hc.
Qed.

End Base64Facts.

(** C10. Decoding the base64 text of a byte sequence gives the byte
    sequence back: [base64ToBytes(bytesToBase64(b)) == b] for every [b]. *)
Theorem C10_base64_round_trip (b : list byte) :
  Base64.base64ToUint8Array (Base64.uint8ArrayToBase64 b) = Some b.
Proof. apply (Base64Facts.roundtrip_upto (length b)). lia. Qed.

(* ------------------------------------------------------------------ *)
(** ** Stopping *)

(** How a sequence of statements runs. *)
Lemma bind_get {B : Type} (k : Store -> Js B) (st : Store) :
  (get ≫= k) st = k st st.
Proof. reflexivity. Qed.

Lemma bind_exec {B : Type} (f : Store -> Store) (k : unit -> Js B) (st : Store) :
  (exec f ≫= k) st = k tt (f st).
Proof. reflexivity. Qed.

Lemma bind_mret {A B : Type} (a : A) (k : A -> Js B) (st : Store) :
  (mret a ≫= k) st = k a st.
Proof. reflexivity. Qed.

Lemma bind_throw {A B : Type} (m : string) (k : A -> Js B) (st : Store) :
  (throw m ≫= k) st = (st, Throw m).
Proof. reflexivity. Qed.

Lemma bind_bind {A B C : Type} (c : Js A) (k : A -> Js B) (k' : B -> Js C)
    (st : Store) :
  ((c ≫= k) ≫= k') st = (c ≫= fun a => k a ≫= k') st.
Proof.
  unfold mbind, Js_bind. destruct (c st) as [st' [a|m]]; reflexivity.
Qed.

Lemma when_true (c : Js unit) : when true c = c.
Proof. reflexivity. Qed.

Lemma when_false (c : Js unit) : when false c = mret tt.
Proof. reflexivity. Qed.

Ltac js_run :=
  repeat first
    [ rewrite bind_bind | rewrite bind_get | rewrite bind_exec
    | rewrite bind_mret | rewrite bind_throw
    | rewrite when_true | rewrite when_false ].

(** Running a statement on a store whose refs are known: everything is
    computed except the operations on the lists of the browser. *)
Ltac js_compute := lazy -[alter insert list_alter list_insert app length].

Ltac store_unfold :=
  unfold setConnectionState, setIsMuted, setIsVideoEnabled, setMessages,
    setCurrentTranscription, setErrorMsg, set_streamRef, set_sessionRef,
    set_sessionPromiseRef, set_audioContextRef, set_inputAudioContextRef,
    set_nextStartTimeRef, set_frameIntervalRef, set_processorRef,
    set_sourceRef, stop_tracks, clearInterval, disconnect_processor,
    disconnect_source, console_, on_streams, on_transports, on_audioGraphs,
    on_intervals, on_startCalls, on_scheduled, with_state, with_refs,
    with_browser in *.

(** [stopSession] always completes, and this is the store it leaves. *)
Lemma stopSession_completes (close_throws : bool) (st : Store) :
  exists st1,
    stopSession close_throws st = (st1, Normal tt)
    /\ connectionState (state st1) = DISCONNECTED
    /\ currentTranscription (state st1) = ""
    /\ messages (state st1) = messages (state st)
    /\ errorMsg (state st1) = errorMsg (state st)
    /\ streamRef (refs st1) = None
    /\ sessionRef (refs st1) = None
    /\ frameIntervalRef (refs st1) = None
    /\ processorRef (refs st1) = None
    /\ sourceRef (refs st1) = None
    /\ connectionStateWrites st1 = (connectionStateWrites st ++ [DISCONNECTED])%list
    /\ startCalls (browser st1) = startCalls (browser st)
    /\ length (transports (browser st1)) = length (transports (browser st))
    /\ length (streams (browser st1)) = length (streams (browser st))
    /\ audioContextRef (refs st1) = audioContextRef (refs st)
    /\ inputAudioContextRef (refs st1) = inputAudioContextRef (refs st).
Proof.
  destruct st as [s [stream session promise actx ictx cursor interval proc src] b w].
  destruct stream, session, interval, proc, src, close_throws;
    (eexists; split; [js_compute; reflexivity|]);
    cbn; repeat split; rewrite ?length_alter, ?length_insert; reflexivity.
Qed.

(** After a stop there is nothing left for a second stop to release. *)
Lemma stopSession_again (close_throws : bool) (st : Store) :
  streamRef (refs st) = None ->
  sessionRef (refs st) = None ->
  frameIntervalRef (refs st) = None ->
  processorRef (refs st) = None ->
  sourceRef (refs st) = None ->
  connectionState (state st) = DISCONNECTED ->
  currentTranscription (state st) = "" ->
  exists st2,
    stopSession close_throws st = (st2, Normal tt)
    /\ state st2 = state st /\ refs st2 = refs st /\ browser st2 = browser st.
Proof.
  destruct st as [[c m v ms ct e]
                  [stream session promise actx ictx cursor interval proc src] b w].
  cbn. intros -> -> -> -> -> -> ->.
  eexists; split; [js_compute; reflexivity|].
  cbn; repeat split; reflexivity.
Qed.

(** C4. From every store and whatever [session.close()] does, [stopSession]
    completes without throwing and leaves the connection state
    [DISCONNECTED], the pending transcription empty and the messages as
    they were; a second [stopSession] right after it completes too and
    changes no state variable, no ref and nothing outside the component.
    In particular this holds in the [CONNECTING] state that [startSession]
    leaves before any device is acquired. *)
Theorem C4_stop_disconnects_and_is_idempotent :
  (forall (st : Store) (close_throws again_throws : bool),
     exists st1 st2,
       stopSession close_throws st = (st1, Normal tt)
       /\ connectionState (state st1) = DISCONNECTED
       /\ currentTranscription (state st1) = ""
       /\ messages (state st1) = messages (state st)
       /\ stopSession again_throws st1 = (st2, Normal tt)
       /\ state st2 = state st1 /\ refs st2 = refs st1
       /\ browser st2 = browser st1)
  /\ (forall (r : Render) (c : ascii) (key : string) (close_throws : bool),
        let connecting :=
          after (startSession r (Some (String c key)) close_throws) initialStore in
        connectionState (state connecting) = CONNECTING
        /\ streams (browser connecting) = []
        /\ exists st1,
             stopSession close_throws connecting = (st1, Normal tt)
             /\ connectionState (state st1) = DISCONNECTED).
Proof.
  split.
  - intros st c1 c2.
    destruct (stopSession_completes c1 st)
      as (st1 & E1 & Hc & Ht & Hm & _ & Hs & Hse & Hi & Hp & Hso & _).
    destruct (stopSession_again c2 st1 Hs Hse Hi Hp Hso Hc Ht)
      as (st2 & E2 & ? & ? & ?).
    exists st1, st2. repeat split; assumption.
  - intros r c key close_throws connecting.
    repeat split.
    destruct (stopSession_completes close_throws connecting) as (st1 & E1 & Hc & _).
    exists st1. split; assumption.
Qed.

(* ------------------------------------------------------------------ *)
(** ** Starting without a credential *)


(** Without a key [startSession] goes from [setErrorMsg(null)] straight to
    its [catch] block. *)
Lemma startSession_without_key (r : Render) (API_KEY : option string)
    (close_throws : bool) (st : Store) :
  truthy (default "" API_KEY) = false ->
  startSession r API_KEY close_throws st
  = startSession_catch close_throws missing_key_message (setErrorMsg None st).
Proof.
  intros H. unfold startSession, try_catch.
  cbn [mbind Js_bind exec]. unfold mbind, Js_bind at 1. cbn [exec].
  rewrite H. reflexivity.
Qed.

(** C7. When [process.env.API_KEY] is absent (undefined or empty),
    [startSession] ends with the configuration error as error message; the
    only values it gives [setConnectionState] are [ERROR] and then
    [DISCONNECTED], never [CONNECTING]; and it neither creates an audio
    context, nor asks for the camera and microphone, nor opens a
    transport. *)
Theorem C7_no_credential_never_connecting (r : Render) (API_KEY : option string)
    (close_throws : bool) (st : Store) :
  truthy (default "" API_KEY) = false ->
  let st' := after (startSession r API_KEY close_throws) st in
  errorMsg (state st') = Some missing_key_message
  /\ connectionStateWrites st'
     = (connectionStateWrites st ++ [ERROR; DISCONNECTED])%list
  /\ ~ In CONNECTING [ERROR; DISCONNECTED]
  /\ connectionState (state st') = DISCONNECTED
  /\ startCalls (browser st') = startCalls (browser st)
  /\ length (transports (browser st')) = length (transports (browser st))
  /\ length (streams (browser st')) = length (streams (browser st))
  /\ audioContextRef (refs st') = audioContextRef (refs st)
  /\ inputAudioContextRef (refs st') = inputAudioContextRef (refs st).
Proof.
  intros H st'. subst st'. unfold after.
  rewrite (startSession_without_key r API_KEY close_throws st H).
  unfold startSession_catch.
  cbn [mbind Js_bind exec]. unfold mbind, Js_bind. cbn [exec].
  match goal with
  | |- context [stopSession close_throws ?s] =>
      destruct (stopSession_completes close_throws s)
        as (st1 & E & Hc & _ & _ & He & _ & _ & _ & _ & _ & Hw & Hs & Ht & Hst & Ha & Hi);
      rewrite E
  end.
  cbn [fst].
  rewrite He, Hw, Hc, Hs, Ht, Hst, Ha, Hi. cbn.
  rewrite <- app_assoc. cbn.
  repeat split; try reflexivity.
  intros [X | [X | []]]; discriminate X.
Qed.

Lemma C7_no_credential_never_connecting_witness :
  let st' := after (startSession (render initialStore) None false) initialStore in
  errorMsg (state st') = Some missing_key_message
  /\ connectionStateWrites st' = [ERROR; DISCONNECTED].
Proof.
  pose proof (C7_no_credential_never_connecting
                (render initialStore) None false initialStore eq_refl) as H.
  cbv zeta in H. destruct H as (He & Hw & _).
  split; [exact He | exact Hw].
Defined.

(* ------------------------------------------------------------------ *)
(** ** Properties kept by every statement *)

Section Preservation.

Variable I : Store -> Prop.

Lemma preserves_mret {A : Type} (a : A) : preserves I (mret a).
Proof. intros st H. exact H. Qed.

Lemma preserves_throw {A : Type} (m : string) : preserves I (@throw A m).
Proof. intros st H. exact H. Qed.

Lemma preserves_get : preserves I get.
Proof. intros st H. exact H. Qed.

Lemma preserves_exec (f : Store -> Store) :
  (forall st, I st -> I (f st)) -> preserves I (exec f).
Proof. intros Hf st H. apply Hf, H. Qed.

Lemma preserves_bind {A B : Type} (c : Js A) (k : A -> Js B) :
  preserves I c -> (forall a, preserves I (k a)) -> preserves I (c ≫= k).
Proof.
  intros Hc Hk st H. unfold mbind, Js_bind.
  specialize (Hc st H).
  destruct (c st) as [st' [a | m]]; cbn in *; [apply Hk, Hc | exact Hc].
Qed.

Lemma preserves_try_catch {A : Type} (body : Js A) (h : string -> Js A) :
  preserves I body -> (forall m, preserves I (h m)) -> preserves I (try_catch body h).
Proof.
  intros Hb Hh st H. unfold try_catch.
  specialize (Hb st H).
  destruct (body st) as [st' [a | m]]; cbn in *; [exact Hb | apply Hh, Hb].
Qed.

Lemma preserves_when (b : bool) (c : Js unit) :
  preserves I c -> preserves I (when b c).
Proof. destruct b; [trivial | intros _; apply preserves_mret]. Qed.

Lemma preserves_run_all (jobs : list (Js unit)) :
  Forall (preserves I) jobs -> preserves I (run_all jobs).
Proof.
  induction 1 as [|j jobs Hj _ IH]; cbn [run_all].
  - apply preserves_mret.
  - apply preserves_bind; [exact Hj | intros _; exact IH].
Qed.

(** What the decoding helpers return is all a continuation may assume. *)
Lemma preserves_bind_option {A B : Type} (o : option A) (m : string)
    (k : A -> Js B) :
  (forall a, o = Some a -> preserves I (k a)) ->
  preserves I (match o with Some a => mret a | None => throw m end ≫= k).
Proof.
  intros Hk. destruct o as [a|]; intros st H.
  - apply (Hk a eq_refl st H).
  - exact H.
Qed.

End Preservation.

(** Statements that leave a store in [I] because all they write is outside
    what [I] reads. *)
Ltac preserves_steps leaf call :=
  repeat
    (intros;
     lazymatch goal with
     | |- preserves _ (mret _) => apply preserves_mret
     | |- preserves _ (throw _) => apply preserves_throw
     | |- preserves _ get => apply preserves_get
     | |- preserves _ (when _ _) => apply preserves_when
     | |- preserves _ (try_catch _ _) => apply preserves_try_catch
     | |- preserves _ (mbind _ _) => apply preserves_bind
     | |- preserves _ (exec _) => first [apply preserves_exec; leaf | call]
     | |- preserves _ (match ?x with _ => _ end) => destruct x
     | |- preserves _ _ => call
     end).

(* ------------------------------------------------------------------ *)
(** ** The arithmetic of doubles *)

Module DoubleFacts.
Import Double.
Local Open Scope N_scope.

Lemma pow2_pos (e : N) : 0 < 2 ^ e.
Proof. apply N.neq_0_lt_0, N.pow_nonzero. discriminate. Qed.

Lemma ulp_exponent_small (n : N) : n < 2 ^ 53 -> ulp_exponent n = 0.
Proof.
  intros H. unfold ulp_exponent.
  destruct (N.eq_dec n 0) as [-> | Hn]; [reflexivity|].
  assert (N.log2 n < 53) by (apply N.log2_lt_pow2; lia). lia.
Qed.

Lemma ulp_exponent_binade (m e : N) :
  2 ^ 52 <= m < 2 ^ 53 -> ulp_exponent (m * 2 ^ e) = e.
Proof.
  intros [Hlo Hhi]. unfold ulp_exponent.
  pose proof (pow2_pos e) as Hp.
  rewrite (N.log2_unique (m * 2 ^ e) (52 + e)); [lia| |].
  - lia.
  - rewrite !N.pow_add_r. replace (N.succ (52 + e)) with (53 + e) by lia.
    rewrite N.pow_add_r. split; nia.
Qed.

(** A mantissa of 53 bits at exponent [e] is a double, the exponent being
    0 below the first binade. *)
Lemma aligned_mul_pow2 (m e : N) :
  m <= 2 ^ 53 -> e = 0 \/ 2 ^ 52 <= m ->
  (m * 2 ^ e) mod 2 ^ ulp_exponent (m * 2 ^ e) = 0.
Proof.
  intros Hhi Hlo.
  destruct (N.eq_dec m (2 ^ 53)) as [-> | Hm].
  - replace (2 ^ 53 * 2 ^ e) with (2 ^ 52 * 2 ^ (e + 1))
      by (rewrite N.pow_add_r; change (2 ^ 53) with (2 ^ 52 * 2 ^ 1); lia).
    rewrite ulp_exponent_binade by (split; [lia | reflexivity]).
    apply N.Div0.mod_mul.
  - destruct Hlo as [-> | Hlo].
    + rewrite N.pow_0_r, N.mul_1_r, ulp_exponent_small by lia.
      apply N.mod_1_r.
    + rewrite ulp_exponent_binade by lia. apply N.Div0.mod_mul.
Qed.

(** The mantissa [round] starts from: the quotient rounded down. *)
Lemma round_quotient (a : N) (b : positive) :
  let n := a / Npos b in
  let e := ulp_exponent n in
  let q := a / (Npos b * 2 ^ e) in
  q = n / 2 ^ e /\ q * 2 ^ e <= n /\
  (e = 0 /\ q < 2 ^ 53 \/ N.log2 n = 52 + e /\ 2 ^ 52 <= q < 2 ^ 53).
Proof.
  intros n e q. pose proof (pow2_pos e) as Hp.
  assert (q = n / 2 ^ e) as Hq by (subst q n; symmetry; apply N.Div0.div_div).
  split; [exact Hq|]. split.
  { rewrite Hq, N.mul_comm. apply N.Div0.mul_div_le. }
  destruct (N.lt_ge_cases n (2 ^ 53)) as [Hn | Hn].
  - left. assert (e = 0) as He by (apply ulp_exponent_small; exact Hn).
    split; [exact He|]. rewrite Hq, He, N.pow_0_r, N.div_1_r. exact Hn.
  - right.
    assert (0 < n) as Hpos by (eapply N.lt_le_trans; [|exact Hn]; reflexivity).
    assert (53 <= N.log2 n) as Hlog by (apply N.log2_le_pow2; assumption).
    assert (N.log2 n = 52 + e) as Hl by (subst e; unfold ulp_exponent; lia).
    split; [exact Hl|].
    destruct (N.log2_spec n Hpos) as [Hlo Hhi].
    rewrite Hl in Hlo. replace (N.succ (N.log2 n)) with (53 + e) in Hhi by lia.
    rewrite N.pow_add_r in Hlo, Hhi. rewrite Hq. split.
    + apply N.div_le_lower_bound; lia.
    + apply N.Div0.div_lt_upper_bound. lia.
Qed.

Lemma representable_infinity : representable infinity_units = true.
Proof. vm_compute. reflexivity. Qed.

(** [round] yields doubles. *)
Lemma representable_round (a : N) (b : positive) :
  representable (round a b) = true.
Proof.
  unfold round.
  destruct (round_quotient a b) as (_ & _ & Hq).
  set (e := ulp_exponent (a / N.pos b)) in *.
  set (q := a / (N.pos b * 2 ^ e)) in *.
  match goal with |- context [N.min (?x * _) _] => set (q' := x) end.
  assert (q <= q' <= q + 1) as Hq'.
  { subst q'. destruct (_ ?= _); [destruct (N.even q)| |]; lia. }
  apply N.min_case_strong; intros Hmin; [|apply representable_infinity].
  unfold representable. apply andb_true_intro. split.
  - apply N.eqb_eq, aligned_mul_pow2; lia.
  - apply N.leb_le. exact Hmin.
Qed.

(** Rounding to nearest is monotone: it never goes below a double that
    the number to round has reached. *)
Lemma round_ge (x a : N) (b : positive) :
  representable x = true -> x * Npos b <= a -> x <= round a b.
Proof.
  unfold representable. intros Hx Hle.
  apply andb_prop in Hx as [Hal Hinf].
  apply N.eqb_eq in Hal. apply N.leb_le in Hinf.
  unfold round.
  destruct (round_quotient a b) as (Hdiv & Hfloor & Hq).
  set (n := a / N.pos b) in *.
  set (e := ulp_exponent n) in *.
  set (q := a / (N.pos b * 2 ^ e)) in *.
  match goal with |- context [N.min (?x * _) _] => set (q' := x) end.
  assert (q <= q') as Hq'.
  { subst q'. destruct (_ ?= _); [destruct (N.even q)| |]; lia. }
  pose proof (pow2_pos e) as Hp.
  assert (x <= n) as Hxn by (apply N.div_le_lower_bound; lia).
  apply N.min_glb; [|exact Hinf].
  apply N.le_trans with (q * 2 ^ e); [|nia].
  destruct Hq as [[He Hsmall] | [Hl Hbin]].
  - rewrite Hdiv, He, N.pow_0_r, N.div_1_r, N.mul_1_r. exact Hxn.
  - pose proof (N.log2_le_mono _ _ Hxn) as Hlog.
    destruct (N.eq_dec (N.log2 x) (N.log2 n)) as [Heq | Hne].
    + assert (ulp_exponent x = e) as Hex by (unfold ulp_exponent; lia).
      rewrite Hex in Hal.
      pose proof (N.Div0.div_mod x (2 ^ e)) as Hdm. rewrite Hal in Hdm.
      assert (x / 2 ^ e <= q) by (rewrite Hdiv; apply N.Div0.div_le_mono; exact Hxn).
      nia.
    + destruct (N.eq_dec x 0) as [-> | Hx0]; [lia|].
      assert (x < 2 ^ (52 + e)) as Hlt by (apply N.log2_lt_pow2; lia).
      rewrite N.pow_add_r in Hlt. nia.
Qed.

End DoubleFacts.

Lemma units_double_of_units (n : N) :
  Double.representable n = true -> units (double_of_units n) = n.
Proof.
  intros H. unfold double_of_units.
  generalize (eq_refl (Double.representable n)).
  generalize (Double.representable n) at 2 3.
  intros [] E; [reflexivity | congruence].
Qed.

(** The sum of two doubles is the double nearest to the sum of the two
    numbers. *)
Lemma units_double_add (x y : double) :
  units (double_add x y) = Double.round (units x + units y) 1.
Proof. apply units_double_of_units, DoubleFacts.representable_round. Qed.

Lemma units_double_div (n : N) (d : positive) :
  units (double_div n d) = Double.round (n * 2 ^ 1074) d.
Proof. apply units_double_of_units, DoubleFacts.representable_round. Qed.

Lemma double_le_refl (x : double) : double_le x x.
Proof. apply N.le_refl. Qed.

Lemma double_le_trans (x y z : double) :
  double_le x y -> double_le y z -> double_le x z.
Proof. apply N.le_trans. Qed.

(** Adding a duration never takes a time back. *)
Lemma double_add_ge (x y : double) : double_le x (double_add x y).
Proof.
  unfold double_le. rewrite units_double_add.
  apply DoubleFacts.round_ge; [apply is_double | lia].
Qed.

Lemma Math_max_ge_l (x y : double) : double_le x (Math_max x y).
Proof.
  unfold double_le, Math_max.
  destruct (units x <=? units y)%N eqn:E; [apply N.leb_le, E | lia].
Qed.

Lemma Math_max_ge_r (x y : double) : double_le y (Math_max x y).
Proof.
  unfold double_le, Math_max.
  destruct (units x <=? units y)%N eqn:E; [lia | apply N.leb_gt in E; lia].
Qed.

(* ------------------------------------------------------------------ *)
(** ** Playback scheduling *)


Lemma gapless_snoc (l : list (double * double)) (c s d : double) :
  gapless l -> cursor_covers l c -> double_le c s -> gapless (l ++ [(s, d)]).
Proof.
  intros G F Hc i j s1 d1 s2 d2 Hij H1 H2.
  destruct (decide (j < length l)%nat) as [Hlt | Hge].
  - rewrite lookup_app_l in H1 by lia. rewrite lookup_app_l in H2 by lia.
    exact (G i j s1 d1 s2 d2 Hij H1 H2).
  - assert (j = length l) as Hi.
    { apply lookup_lt_Some in H2. rewrite length_app in H2. simpl in H2. lia. }
    rewrite lookup_app_l in H1 by lia.
    rewrite lookup_app_r in H2 by lia.
    rewrite Hi, Nat.sub_diag in H2. cbn in H2. injection H2 as <- <-.
    unfold cursor_covers in F. rewrite Forall_forall in F.
    apply list_elem_of_lookup_2 in H1.
    pose proof (F _ H1) as He. cbn in He.
    pose proof (double_add_ge s1 d1) as Hd.
    split; eauto using double_le_trans.
Qed.

Lemma cursor_covers_snoc (l : list (double * double)) (c s d : double) :
  cursor_covers l c -> double_le c s ->
  cursor_covers (l ++ [(s, d)]) (double_add s d).
Proof.
  intros F Hc. unfold cursor_covers in *.
  apply Forall_app. split.
  - eapply Forall_impl; [exact F|]. intros [s' d'] ?; cbn in *.
    pose proof (double_add_ge s d). eauto using double_le_trans.
  - constructor; [|constructor]. cbn. apply double_le_refl.
Qed.

Lemma playback_ok_same (st st' : Store) :
  scheduled (browser st') = scheduled (browser st) ->
  nextStartTimeRef (refs st') = nextStartTimeRef (refs st) ->
  playback_ok st -> playback_ok st'.
Proof. unfold playback_ok, cursor. intros -> ->. trivial. Qed.

Ltac playback_untouched :=
  intros; eapply playback_ok_same; [ | | eassumption ];
  store_unfold; reflexivity.

Section Playback.

Variable decodeAudioData : list byte -> option double.

(** What [handleServerMessage] does with a frame that decodes. *)
Lemma handleServerMessage_schedules (r : Render) (message : LiveServerMessage)
    (currentTime : double) (now : Z) (st : Store) (bytes : list byte) (d : double) :
  truthy_opt (audioData message) = true ->
  is_set (audioContextRef (refs st)) = true ->
  Base64.base64ToUint8Array (default "" (audioData message)) = Some bytes ->
  decodeAudioData bytes = Some d ->
  let st' := after (handleServerMessage decodeAudioData r message currentTime now) st in
  let startTime := Math_max currentTime (cursor st) in
  scheduled (browser st') = (scheduled (browser st) ++ [(startTime, d)])%list
  /\ cursor st' = double_add startTime d.
Proof.
  intros Ha Hc Hb Hd. unfold handleServerMessage, after, cursor.
  rewrite bind_get, Ha, Hc. cbn [andb]. js_run.
  rewrite Hb. js_run. rewrite Hd. js_run.
  destruct (truthy_opt (outputTranscript message));
    destruct (truthy_opt (inputTranscript message));
    destruct (turnComplete message);
    destruct (truthy (trim (r_currentTranscription r)));
    cbn [orb]; js_run; split; reflexivity.
Qed.

Lemma handleServerMessage_playback_ok (r : Render) (message : LiveServerMessage)
    (currentTime : double) (now : Z) :
  preserves playback_ok (handleServerMessage decodeAudioData r message currentTime now).
Proof.
  unfold handleServerMessage.
  apply preserves_bind; [apply preserves_get | intros st0].
  apply preserves_bind.
  - apply preserves_when.
    apply preserves_bind_option. intros bytes _.
    apply preserves_bind_option. intros d Hd.
    intros st [G F]. cbn.
    pose proof (Math_max_ge_r currentTime (nextStartTimeRef (refs st))) as Hmax.
    split; store_unfold; cbn.
    + eapply gapless_snoc; eassumption.
    + eapply cursor_covers_snoc; [exact F | exact Hmax].
  - intros _. preserves_steps playback_untouched fail.
Qed.

Lemma send_or_warn_playback_ok (t : nat) (job : Media * string) :
  preserves playback_ok (send_or_warn t job).
Proof.
  unfold send_or_warn, sendRealtimeInput.
  preserves_steps playback_untouched fail.
Qed.

Lemma handler_playback_ok (e : Event) :
  preserves playback_ok (handler decodeAudioData e).
Proof.
  unfold handler.
  apply preserves_bind; [apply preserves_get | intros st0].
  destruct e.
  9: { destruct (transports (browser st0) !! t) as [[r s [] res th se]|];
         try apply preserves_mret.
       unfold onmessage. apply preserves_exec.
       apply handleServerMessage_playback_ok. }
  8: { preserves_steps playback_untouched fail.
       unfold sessionPromise_resolves.
       preserves_steps playback_untouched fail.
       intros. apply preserves_run_all, Forall_fmap, Forall_forall.
       intros job _. apply send_or_warn_playback_ok. }
  all: unfold onopen, onclose, onerror, startSession,
         startSession_after_getUserMedia, startSession_after_play,
         startSession_catch, stopSession, stopMediaProcessing,
         initializeAudioContexts, toggleMute, toggleVideo, startAudioInput,
         startVideoStreaming, onaudioprocess, interval_callback, then_send,
         send_or_warn, sendRealtimeInput, close, await_at;
       preserves_steps playback_untouched fail.
Qed.

Lemma run_playback_ok (events : list Event) (st : Store) :
  playback_ok st -> playback_ok (run decodeAudioData events st).
Proof.
  revert st. induction events as [|e events IH]; intros st H; cbn.
  - exact H.
  - apply IH. apply handler_playback_ok, H.
Qed.

Lemma initialStore_playback_ok : playback_ok initialStore.
Proof.
  split.
  - intros i j s1 d1 s2 d2 _ H. discriminate H.
  - constructor.
Qed.

End Playback.

(** C1. The cursor starts at 0.  A frame that decodes to duration [d] and is
    handled at clock time [currentTime] is scheduled at
    [startTime = Math.max(currentTime, cursor)], and the cursor moves to
    [startTime + d], the sum of two doubles, which is the double nearest to
    the sum of the two numbers.  So in every store the component can reach,
    whatever the events, the clock times and the durations of the frames,
    a frame scheduled after another starts no earlier than the other
    started, and no earlier than that rounded sum of the other's start and
    duration. *)
Theorem C1_playback_is_gapless (decodeAudioData : list byte -> option double) :
  cursor initialStore = 0%double
  /\ (forall r message currentTime now st bytes d,
        truthy_opt (audioData message) = true ->
        is_set (audioContextRef (refs st)) = true ->
        Base64.base64ToUint8Array (default "" (audioData message)) = Some bytes ->
        decodeAudioData bytes = Some d ->
        let st' := after (handleServerMessage decodeAudioData r message
                            currentTime now) st in
        let startTime := Math_max currentTime (cursor st) in
        scheduled (browser st')
        = (scheduled (browser st) ++ [(startTime, d)])%list
        /\ cursor st' = double_add startTime d)
  /\ (forall events i j s1 d1 s2 d2,
        let st := run decodeAudioData events initialStore in
        (i < j)%nat ->
        scheduled (browser st) !! i = Some (s1, d1) ->
        scheduled (browser st) !! j = Some (s2, d2) ->
        double_le s1 s2 /\ double_le (double_add s1 d1) s2).
Proof.
  split; [reflexivity | split].
  - intros. eapply handleServerMessage_schedules; eassumption.
  - intros events i j s1 d1 s2 d2 st Hij H1 H2.
    destruct (run_playback_ok decodeAudioData events initialStore
                initialStore_playback_ok) as [G _].
    exact (G i j s1 d1 s2 d2 Hij H1 H2).
Qed.

Lemma C1_playback_is_gapless_witness :
  let st := run decode24k
              (connect ++ [transport_message 0 (AudioFrame four_samples)
                             (double_div 1 2) 1000;
                           transport_message 0 (AudioFrame two_samples) 0 1001])
              initialStore in
  let half := double_div 1 2 in
  let end_of_first := double_add half (double_div 4 24000) in
  scheduled (browser st) !! 0%nat = Some (half, double_div 4 24000)
  /\ scheduled (browser st) !! 1%nat = Some (end_of_first, double_div 2 24000)
  /\ double_le half end_of_first /\ double_le end_of_first end_of_first.
Proof.
  intros st half end_of_first.
  destruct (C1_playback_is_gapless decode24k) as (_ & _ & Hrun).
  assert (scheduled (browser st) !! 0%nat = Some (half, double_div 4 24000)) as H0
    by (vm_compute; reflexivity).
  assert (scheduled (browser st) !! 1%nat
          = Some (end_of_first, double_div 2 24000)) as H1
    by (vm_compute; reflexivity).
  split; [exact H0 | split; [exact H1|]].
  exact (Hrun _ 0%nat 1%nat _ _ _ _ (Nat.lt_0_succ 0) H0 H1).
Defined.

(** C1, as the specification words it, fails.  Three frames of one, four
    and two samples at 24 kHz arrive at clock time 0.  The second starts at
    1/24000 s, as a double, and lasts 4/24000 s, as a double; the sum of
    the two numbers is no double, the cursor is the double next below it,
    and there the third frame starts: 2^1007 units of 2^-1074 s, that is
    2^-67 s, before the second frame ends. *)
Lemma C1_counterexample :
  let st := run decode24k
              (connect ++ [frame 1000 one_sample; frame 1001 four_samples;
                           frame 1002 two_samples])
              initialStore in
  (exists s2 d2 s3 d3,
     scheduled (browser st) !! 1%nat = Some (s2, d2)
     /\ scheduled (browser st) !! 2%nat = Some (s3, d3)
     /\ s2 = double_div 1 24000 /\ d2 = double_div 4 24000
     /\ s3 = double_add s2 d2
     /\ (units s3 + 2 ^ 1007 = units s2 + units d2)%N)
  /\ ~ no_overlap (scheduled (browser st)).
Proof.
  intros st.
  assert (scheduled (browser st) !! 1%nat
          = Some (double_div 1 24000, double_div 4 24000)) as H1
    by (vm_compute; reflexivity).
  assert (scheduled (browser st) !! 2%nat
          = Some (double_add (double_div 1 24000) (double_div 4 24000),
                  double_div 2 24000)) as H2
    by (vm_compute; reflexivity).
  assert ((units (double_add (double_div 1 24000) (double_div 4 24000))
           + 2 ^ 1007
           = units (double_div 1 24000) + units (double_div 4 24000))%N) as Hgap
    by (vm_compute; reflexivity).
  split.
  - exists (double_div 1 24000), (double_div 4 24000),
      (double_add (double_div 1 24000) (double_div 4 24000)), (double_div 2 24000).
    split; [exact H1 | split; [exact H2|]].
    split; [reflexivity | split; [reflexivity | split; [reflexivity | exact Hgap]]].
  - intros H. specialize (H 1%nat 2%nat _ _ _ _ (Nat.lt_succ_diag_r 1) H1 H2).
    assert (0 < 2 ^ 1007)%N by (apply N.neq_0_lt_0, N.pow_nonzero; discriminate).
    lia.
Qed.

(* ------------------------------------------------------------------ *)
(** ** Transcript aggregation *)

(** C2. On a session started from the freshly mounted component, the
    deltas "Hello " and "world" followed by a turn-complete leave the
    messages empty and "Hello world" in the pending transcription:
    [handleServerMessage] tests the [currentTranscription] of the render
    that started the session, which is empty. *)
Theorem C2_turn_complete_finalizes_nothing :
  let st := run decode24k
              (connect ++ [transport_message 0 (TranscriptDelta "Hello ") 0 1000;
                           transport_message 0 (TranscriptDelta "world") 0 1001;
                           transport_message 0 TurnComplete 0 1002])
              initialStore in
  messages (state st) = []
  /\ currentTranscription (state st) = "Hello world".
Proof. vm_compute. split; reflexivity. Qed.

(** A session started while "Hi" is pending finalizes "Hi" at every
    turn-complete, also when nothing is pending any more. *)
Example turn_complete_finalizes_what_the_render_saw :
  let st := run decode24k
              (connect ++ [transport_message 0 (TranscriptDelta "Hi") 0 1000;
                           transport_closes 0;
                           click_startSession (Some "key") false;
                           getUserMedia_settles 1 Resolved false;
                           play_settles 1 Resolved false;
                           transport_opens 1; connect_resolves 1;
                           transport_message 1 TurnComplete 0 2000;
                           transport_message 1 TurnComplete 0 3000])
              initialStore in
  text <$> messages (state st) = ["Hi"; "Hi"]
  /\ id <$> messages (state st) = ["2000"; "3000"]
  /\ currentTranscription (state st) = "".
Proof. vm_compute. repeat split; reflexivity. Qed.





(* ------------------------------------------------------------------ *)
(** ** Muting *)

(** C5. The session is started unmuted and then muted. The next block of
    the microphone is sent all the same: [onaudioprocess] tests the
    [isMuted] of the render that started the session. *)
Theorem C5_block_sent_while_muted :
  let muted := run decode24k (connect ++ [click_toggleMute]) initialStore in
  let st := step decode24k muted (audioprocess 0 ["M"%byte; "a"%byte]) in
  isMuted (state muted) = true
  /\ sent_on 0 muted = []
  /\ sent_on 0 st = [{| mimeType := "audio/pcm;rate=16000"; data := "TWE=" |}].
Proof. vm_compute. repeat split; reflexivity. Qed.

(* ------------------------------------------------------------------ *)
(** ** Failures *)

(** Whatever the state was, [stopSession] leaves another one. *)
Lemma stopSession_leaves_not_ERROR (close_throws : bool) (st : Store) :
  not_ERROR (fst (stopSession close_throws st)).
Proof.
  destruct (stopSession_completes close_throws st) as (st1 & E & Hc & _).
  rewrite E. unfold not_ERROR. cbn [fst]. rewrite Hc. discriminate.
Qed.

Lemma stopSession_not_ERROR (close_throws : bool) :
  preserves not_ERROR (stopSession close_throws).
Proof. intros st _. apply stopSession_leaves_not_ERROR. Qed.

Lemma startSession_catch_not_ERROR (close_throws : bool) (message : string) :
  preserves not_ERROR (startSession_catch close_throws message).
Proof.
  intros st _. unfold startSession_catch. js_run.
  apply stopSession_leaves_not_ERROR.
Qed.

Lemma onerror_not_ERROR (close_throws : bool) :
  preserves not_ERROR (onerror close_throws).
Proof.
  intros st _. unfold onerror. js_run.
  apply stopSession_leaves_not_ERROR.
Qed.

Ltac state_kept :=
  idtac;
  let st := fresh "st" in
  let H := fresh "H" in
  intros st H; unfold not_ERROR in *; store_unfold; cbn;
  first [exact H | discriminate].

Lemma onmessage_not_ERROR (decodeAudioData : list byte -> option double)
    (r : Render) (message : LiveServerMessage) (currentTime : double) (now : Z) :
  preserves not_ERROR (onmessage decodeAudioData r message currentTime now).
Proof.
  unfold onmessage. apply preserves_exec.
  change (preserves not_ERROR
            (handleServerMessage decodeAudioData r message currentTime now)).
  unfold handleServerMessage.
  preserves_steps state_kept fail.
Qed.

Ltac not_ERROR_known :=
  idtac;
  lazymatch goal with
  | |- preserves _ (stopSession _) => apply stopSession_not_ERROR
  | |- preserves _ (startSession_catch _ _) => apply startSession_catch_not_ERROR
  | |- preserves _ (onerror _) => apply onerror_not_ERROR
  | |- preserves _ (onmessage _ _ _ _ _) => apply onmessage_not_ERROR
  | |- preserves _ (run_all _) =>
      apply preserves_run_all, Forall_fmap, Forall_forall; intros;
      unfold compose; cbn beta; unfold send_or_warn, sendRealtimeInput
  end.

Lemma handler_not_ERROR (decodeAudioData : list byte -> option double) (e : Event) :
  preserves not_ERROR (handler decodeAudioData e).
Proof.
  unfold handler.
  apply preserves_bind; [apply preserves_get | intros st0].
  destruct e;
    unfold onopen, onclose, startSession, startSession_after_getUserMedia,
      startSession_after_play, sessionPromise_resolves, stopMediaProcessing,
      initializeAudioContexts, toggleMute, toggleVideo, startAudioInput,
      startVideoStreaming, onaudioprocess, interval_callback, then_send,
      send_or_warn, sendRealtimeInput, await_at;
    preserves_steps state_kept not_ERROR_known.
Qed.

(** C6. The camera is refused, or the transport fails once connected: the
    error message is set and everything is released, but the [ERROR] given
    to [setConnectionState] is overwritten by the [DISCONNECTED] of the
    [stopSession] that follows it in the same handler, so the state the
    component is left in is [DISCONNECTED].  Whatever the events, no
    handler leaves the component in [ERROR]. *)
Theorem C6_error_state_does_not_last :
  let refused := run decode24k
                   [click_startSession (Some "key") false;
                    getUserMedia_settles 0 (Rejected "Permission denied") false]
                   initialStore in
  let failed := run decode24k (connect ++ [transport_errors 0 false]) initialStore in
  (connectionStateWrites refused = [CONNECTING; ERROR; DISCONNECTED]
   /\ connectionState (state refused) = DISCONNECTED
   /\ errorMsg (state refused) = Some "Permission denied")
  /\ (connectionStateWrites failed = [CONNECTING; CONNECTED; ERROR; DISCONNECTED]
      /\ connectionState (state failed) = DISCONNECTED
      /\ errorMsg (state failed) = Some "Connection error occurred. Please try again."
      /\ streams (browser failed) = [false]
      /\ iv_active <$> intervals (browser failed) = [false])
  /\ (forall decodeAudioData events,
        connectionState (state (run decodeAudioData events initialStore)) <> ERROR).
Proof.
  split; [vm_compute; repeat split; reflexivity|].
  split; [vm_compute; repeat split; reflexivity|].
  intros decodeAudioData events.
  change (not_ERROR (run decodeAudioData events initialStore)).
  assert (not_ERROR initialStore) as H by discriminate.
  revert H. generalize initialStore.
  induction events as [|e events IH]; intros st H; cbn.
  - exact H.
  - apply IH. apply handler_not_ERROR, H.
Qed.

(* ------------------------------------------------------------------ *)
(** ** Starting twice *)

(** C8. While the first call of [startSession] waits for its transport the
    state is [CONNECTING] and "Start Interpreter" is still on the page. A
    second click goes through [startSession] again: nothing rejects it,
    nothing stops the first session, and two transports are open at once,
    the first of them out of reach of [sessionRef]. The same happens from
    [CONNECTED] once the video is disabled, through "Start Session to
    activate". *)
Theorem C8_second_start_opens_second_transport :
  let again (call : nat) :=
    [click_startSession (Some "key") false;
     getUserMedia_settles call Resolved false;
     play_settles call Resolved false] in
  let connecting := run decode24k (again 0%nat) initialStore in
  let twice := run decode24k
                 (again 1%nat ++ [transport_opens 0; connect_resolves 0;
                                  transport_opens 1; connect_resolves 1])
                 connecting in
  let video_off := run decode24k (connect ++ [click_toggleVideo]) initialStore in
  let twice' := run decode24k
                  (again 1%nat ++ [transport_opens 1; connect_resolves 1])
                  video_off in
  (connectionState (state connecting) = CONNECTING
   /\ start_button_rendered (state connecting) = true
   /\ active_transports connecting = 1%nat
   /\ tr_readyState <$> transports (browser twice) = [Open; Open]
   /\ active_transports twice = 2%nat
   /\ sessionRef (refs twice) = Some 1%nat)
  /\ (connectionState (state video_off) = CONNECTED
      /\ start_button_rendered (state video_off) = true
      /\ active_transports video_off = 1%nat
      /\ tr_readyState <$> transports (browser twice') = [Open; Open]
      /\ active_transports twice' = 2%nat
      /\ streams (browser twice') = [true; true]).
Proof. vm_compute. repeat split; reflexivity. Qed.

(* ------------------------------------------------------------------ *)
(** ** Malformed frames *)

(** A frame that does not decode leaves the store as it was: the handler
    throws before it has written anything. *)
Lemma undecodable_frame_changes_nothing (decodeAudioData : list byte -> option double)
    (r : Render) (data : string) (currentTime : double) (now : Z) (st : Store) :
  decoded decodeAudioData data = None ->
  after (handleServerMessage decodeAudioData r (AudioFrame data) currentTime now) st
  = st.
Proof.
  intros Hd. unfold handleServerMessage, after, AudioFrame.
  cbn [audioData outputTranscript inputTranscript turnComplete default
       from_option truthy_opt].
  change (Datatypes.id data) with data.
  rewrite bind_get.
  destruct (truthy data && is_set (audioContextRef (refs st))); js_run.
  2: { cbn [orb]. js_run. reflexivity. }
  unfold decoded in Hd.
  destruct (Base64.base64ToUint8Array data) as [bytes|]; js_run; [|reflexivity].
  cbn in Hd. rewrite Hd. js_run. reflexivity.
Qed.

Lemma undecodable_frame_step (decodeAudioData : list byte -> option double)
    (t : nat) (data : string) (currentTime : double) (now : Z) (st : Store) :
  decoded decodeAudioData data = None ->
  step decodeAudioData st (transport_message t (AudioFrame data) currentTime now) = st.
Proof.
  intros Hd. unfold step, handler, after. rewrite bind_get.
  destruct (transports (browser st) !! t) as [[r s [] res th se]|]; try reflexivity.
  unfold onmessage. cbn [exec fst].
  apply undecodable_frame_changes_nothing, Hd.
Qed.

(** C9, as the code has it. An audio frame that does not decode is skipped
    without a trace: the events before and after it leave exactly the store
    they leave without it, so the frames around it are scheduled and the
    cursor moves as if it had never arrived, and nothing is logged for
    it. *)
Theorem C9_malformed_frame_is_skipped (decodeAudioData : list byte -> option double)
    (data : string) (t : nat) (currentTime : double) (now : Z)
    (before after_ : list Event) (st : Store) :
  decoded decodeAudioData data = None ->
  let malformed_frame := transport_message t (AudioFrame data) currentTime now in
  step decodeAudioData (run decodeAudioData before st) malformed_frame
  = run decodeAudioData before st
  /\ run decodeAudioData (before ++ malformed_frame :: after_) st
     = run decodeAudioData (before ++ after_) st.
Proof.
  intros Hd malformed_frame. split.
  - apply undecodable_frame_step, Hd.
  - unfold run. rewrite !fold_left_app. cbn [fold_left].
    f_equal. apply undecodable_frame_step, Hd.
Qed.

(** Five frames, the third of three bytes. *)
Lemma C9_malformed_frame_is_skipped_witness :
  let st := run decode24k
              ((connect ++ [frame 1000 four_samples; frame 1001 two_samples])
               ++ frame 1002 malformed
               :: [frame 1003 two_samples; frame 1004 four_samples])
              initialStore in
  st = run decode24k
         ((connect ++ [frame 1000 four_samples; frame 1001 two_samples])
          ++ [frame 1003 two_samples; frame 1004 four_samples])
         initialStore
  /\ length (scheduled (browser st)) = 4%nat.
Proof.
  intros st. split; [|vm_compute; reflexivity].
  refine (proj2 (C9_malformed_frame_is_skipped decode24k malformed 0 0 1002
                   _ _ initialStore _)).
  vm_compute; reflexivity.
Defined.

(** C9 as stated fails: with the third of five frames malformed, the
    console holds no warning after the five. *)
Lemma C9_counterexample :
  let st := run decode24k
              (connect ++ [frame 1000 four_samples; frame 1001 two_samples;
                           frame 1002 malformed;
                           frame 1003 two_samples; frame 1004 four_samples])
              initialStore in
  decoded decode24k malformed = None
  /\ ~ (exists text, In (warn, text) (console (browser st))).
Proof.
  split; [vm_compute; reflexivity|].
  intros [text H]. vm_compute in H.
  destruct H as [H | []]. discriminate H.
Qed.

(* ================================================================== *)
(** * Further properties of the component *)

(* ------------------------------------------------------------------ *)
(** ** Invariants of the event loop *)

Lemma preserves_when_if (I : Store -> Prop) (b : bool) (c : Js unit) :
  (b = true -> preserves I c) -> preserves I (when b c).
Proof.
  destruct b; cbn [when]; intros H; [apply H; reflexivity | apply preserves_mret].
Qed.

(** What every handler preserves holds along every run. *)
Lemma run_preserves (I : Store -> Prop) (decodeAudioData : list byte -> option double) :
  (forall e, preserves I (handler decodeAudioData e)) ->
  forall events st, I st -> I (run decodeAudioData events st).
Proof.
  intros Hh events. induction events as [|e events IH]; intros st H; cbn.
  - exact H.
  - apply IH. apply Hh, H.
Qed.

(** The statements that are no sequence of writes: the handler of a
    message, and the reactions of a promise. *)
Ltac known_statement :=
  idtac;
  lazymatch goal with
  | |- preserves ?I (exec (after ?h)) =>
      apply preserves_exec; change (preserves I h); unfold handleServerMessage
  | |- preserves _ (run_all _) =>
      apply preserves_run_all, Forall_fmap, Forall_forall; intros;
      unfold compose; cbn beta; unfold send_or_warn, sendRealtimeInput
  end.

(** Every handler preserves a property that every write preserves. *)
Ltac every_handler_using leaf call :=
  unfold handler;
  apply preserves_bind; [apply preserves_get | intro];
  lazymatch goal with
  | |- preserves _ (match ?e with _ => _ end) => destruct e
  end;
  unfold onmessage, onopen, onclose, onerror, startSession,
    startSession_after_getUserMedia, startSession_after_play,
    sessionPromise_resolves, startSession_catch, stopSession,
    stopMediaProcessing, initializeAudioContexts, toggleMute, toggleVideo,
    startAudioInput, startVideoStreaming, onaudioprocess, interval_callback,
    then_send, send_or_warn, sendRealtimeInput, close, await_at;
  preserves_steps leaf call.

Ltac every_handler leaf := every_handler_using leaf known_statement.

Ltac messages_grow :=
  idtac;
  let st := fresh "st" in
  let H := fresh "H" in
  intros st H; store_unfold; cbn;
  first [exact H | apply prefix_app_r; exact H].

Lemma handler_appends_messages (decodeAudioData : list byte -> option double)
    (before : list Message) (e : Event) :
  preserves (fun st => before `prefix_of` messages (state st))
            (handler decodeAudioData e).
Proof. every_handler messages_grow. Qed.

(** X1. The messages are an append-only history: whatever happens, stops
    and errors included, the messages a store holds are still there, in
    the same order and unchanged, at the head of the messages of every
    later store. *)
Theorem X1_messages_are_append_only (decodeAudioData : list byte -> option double)
    (events : list Event) (st : Store) :
  messages (state st) `prefix_of` messages (state (run decodeAudioData events st)).
Proof.
  apply (run_preserves (fun st' => messages (state st) `prefix_of` messages (state st'))).
  - intros e. apply handler_appends_messages.
  - reflexivity.
Qed.

Lemma truthy_trim_not_blank (s : string) :
  truthy (trim s) = true -> blank s = false.
Proof.
  intros H. destruct (blank s) eqn:E; [|reflexivity].
  apply trim_blank in E. rewrite E in H. discriminate H.
Qed.

Ltac messages_kept :=
  idtac;
  let st := fresh "st" in
  let H := fresh "H" in
  intros st H; store_unfold; cbn; exact H.

Lemma handleServerMessage_finalized_turns (decodeAudioData : list byte -> option double)
    (r : Render) (message : LiveServerMessage) (currentTime : double) (now : Z) :
  preserves (fun st => Forall finalized_turn (messages (state st)))
            (handleServerMessage decodeAudioData r message currentTime now).
Proof.
  unfold handleServerMessage.
  apply preserves_bind; [apply preserves_get | intros st0].
  apply preserves_bind; [preserves_steps messages_kept fail | intros _].
  apply preserves_bind; [preserves_steps messages_kept fail | intros _].
  apply preserves_when, preserves_when_if. intros Htrim.
  apply preserves_bind; [|intros _; apply preserves_exec; messages_kept].
  apply preserves_exec. intros st H. store_unfold. cbn.
  apply Forall_app. split; [exact H|].
  constructor; [|constructor].
  repeat split. cbn. apply truthy_trim_not_blank, Htrim.
Qed.

Ltac finalized_statement :=
  idtac;
  lazymatch goal with
  | |- preserves ?I (exec (after ?h)) =>
      apply preserves_exec; change (preserves I h);
      apply handleServerMessage_finalized_turns
  | |- preserves _ _ => known_statement
  end.

Lemma handler_finalized_turns (decodeAudioData : list byte -> option double) (e : Event) :
  preserves (fun st => Forall finalized_turn (messages (state st)))
            (handler decodeAudioData e).
Proof. every_handler_using messages_kept finalized_statement. Qed.

(** X2. Every message the component ever holds was finalized by
    [handleServerMessage]: its role is [model], its text is not empty or
    white space only, and [isFinal] is not set.  No [user] or [system]
    message is ever created. *)
Theorem X2_every_message_is_a_model_turn (decodeAudioData : list byte -> option double)
    (events : list Event) (m : Message) :
  m ∈ messages (state (run decodeAudioData events initialStore)) ->
  finalized_turn m.
Proof.
  assert (Forall finalized_turn
            (messages (state (run decodeAudioData events initialStore)))) as H.
  { apply (run_preserves (fun st => Forall finalized_turn (messages (state st)))).
    - apply handler_finalized_turns.
    - constructor. }
  rewrite Forall_forall in H. apply H.
Qed.

Lemma X2_every_message_is_a_model_turn_witness :
  finalized_turn {| id := "2000"; role := model; text := "Hi";
                    timestamp := 2000; isFinal := None |}.
Proof.
  apply (X2_every_message_is_a_model_turn decode24k
           (connect ++ [transport_message 0 (TranscriptDelta "Hi") 0 1000;
                        transport_closes 0;
                        click_startSession (Some "key") false;
                        getUserMedia_settles 1 Resolved false;
                        play_settles 1 Resolved false;
                        transport_opens 1; connect_resolves 1;
                        transport_message 1 TurnComplete 0 2000])%list).
  vm_compute. constructor.
Defined.

(* ------------------------------------------------------------------ *)
(** ** What a message does *)

(** X3. The input transcript of a message has no effect at all: a message
    is handled in the same way, with the same outcome and the same store,
    whatever its [inputTranscription] is.  What the user said is never
    shown nor recorded. *)
Theorem X3_input_transcript_is_ignored (decodeAudioData : list byte -> option double)
    (r : Render) (message : LiveServerMessage) (it : option string)
    (currentTime : double) (now : Z) (st : Store) :
  handleServerMessage decodeAudioData r (with_inputTranscript it message)
    currentTime now st
  = handleServerMessage decodeAudioData r message currentTime now st.
Proof.
  unfold handleServerMessage, with_inputTranscript.
  cbn [audioData outputTranscript inputTranscript turnComplete].
  destruct (truthy_opt (outputTranscript message)), (truthy_opt it),
    (truthy_opt (inputTranscript message)); reflexivity.
Qed.

Lemma append_empty_r (s : string) : s ++ "" = s.
Proof. induction s as [|c s IH]; cbn; [reflexivity | now rewrite IH]. Qed.

Lemma append_assoc (a b c : string) : (a ++ b) ++ c = a ++ (b ++ c).
Proof. induction a as [|x a IH]; cbn; [reflexivity | now rewrite IH]. Qed.

(** One delta on an open transport. *)
Lemma delta_step (decodeAudioData : list byte -> option double) (t : nat)
    (x : string) (currentTime : double) (now : Z) (st : Store) (tr : Transport) :
  transports (browser st) !! t = Some tr ->
  tr_readyState tr = Open ->
  let st' := step decodeAudioData st
               (transport_message t (TranscriptDelta x) currentTime now) in
  currentTranscription (state st') = currentTranscription (state st) ++ x
  /\ messages (state st') = messages (state st)
  /\ transports (browser st') = transports (browser st).
Proof.
  intros Ht Hopen. unfold step, handler, after. rewrite bind_get, Ht.
  destruct tr as [r s rs res th se]. cbn in Hopen. subst rs.
  unfold onmessage, handleServerMessage, after, TranscriptDelta.
  cbn [audioData outputTranscript inputTranscript turnComplete truthy_opt
       andb orb exec fst].
  js_run.
  destruct x as [|c x]; cbn [truthy orb]; js_run; cbn [fst].
  - rewrite append_empty_r. repeat split.
  - repeat split.
Qed.

(** X4. Output transcript deltas received on an open transport pile up in
    arrival order: after any number of them the pending transcription is
    what it was followed by their texts, empty ones included, and no
    message has been added. *)
Theorem X4_deltas_concatenate (decodeAudioData : list byte -> option double)
    (t : nat) (texts : list (string * double * Z)) (st : Store) (tr : Transport) :
  transports (browser st) !! t = Some tr ->
  tr_readyState tr = Open ->
  let st' := run decodeAudioData (deltas t texts) st in
  currentTranscription (state st')
  = currentTranscription (state st) ++ concat_all (fst <$> (fst <$> texts))
  /\ messages (state st') = messages (state st).
Proof.
  revert st. induction texts as [|[[x ct] now] texts IH]; intros st Ht Hopen.
  - cbn. rewrite append_empty_r. split; reflexivity.
  - cbn [deltas fmap list_fmap run fold_left fst snd].
    destruct (delta_step decodeAudioData t x ct now st tr Ht Hopen) as (Hc & Hm & Htr).
    cbn [fst snd].
    match goal with
    | |- context [fold_left _ _ ?s1] =>
        destruct (IH s1) as [IHc IHm]; [rewrite Htr; exact Ht | exact Hopen |]
    end.
    unfold deltas, run in IHc, IHm. cbn zeta in IHc, IHm.
    split.
    + etransitivity; [exact IHc|]. rewrite Hc. cbn [concat_all foldr].
      apply append_assoc.
    + etransitivity; [exact IHm|]. exact Hm.
Qed.

Lemma X4_deltas_concatenate_witness :
  let st := run decode24k connect initialStore in
  currentTranscription
    (state (run decode24k (deltas 0 [("Hello ", 0%double, 1000%Z); ("", 0%double, 1001%Z);
                                     ("world", 0%double, 1002%Z)]) st))
  = "Hello world".
Proof.
  intros st.
  destruct (X4_deltas_concatenate decode24k 0
              [("Hello ", 0%double, 1000%Z); ("", 0%double, 1001%Z); ("world", 0%double, 1002%Z)]
              st
              {| tr_render := render initialStore; tr_stream := 0;
                 tr_readyState := Open; tr_resolved := true;
                 tr_thens := []; tr_sent := [] |}
              eq_refl eq_refl) as [H _].
  exact H.
Defined.

(** X5. A message whose audio does not decode is dropped whole: the
    handler throws before it has written anything, so a transcript delta
    or a turn-complete marker in the same message is lost with the
    frame. *)
Theorem X5_undecodable_message_is_dropped_whole
    (decodeAudioData : list byte -> option double) (r : Render)
    (message : LiveServerMessage) (currentTime : double) (now : Z) (st : Store) :
  truthy_opt (audioData message) = true ->
  is_set (audioContextRef (refs st)) = true ->
  decoded decodeAudioData (default "" (audioData message)) = None ->
  exists err,
    handleServerMessage decodeAudioData r message currentTime now st
    = (st, Throw err).
Proof.
  intros Ha Hc Hd. unfold handleServerMessage.
  rewrite bind_get, Ha, Hc. cbn [andb]. js_run.
  unfold decoded in Hd.
  destruct (Base64.base64ToUint8Array (default "" (audioData message)))
    as [bytes|]; js_run; [|eexists; reflexivity].
  cbn in Hd. rewrite Hd. js_run. eexists; reflexivity.
Qed.

Lemma X5_undecodable_message_is_dropped_whole_witness :
  let st := run decode24k connect initialStore in
  let message := {| audioData := Some malformed; outputTranscript := Some "Hi";
                    inputTranscript := None; turnComplete := true |} in
  exists err,
    handleServerMessage decode24k (render initialStore) message 0 1000 st
    = (st, Throw err).
Proof.
  intros st message.
  apply (X5_undecodable_message_is_dropped_whole decode24k (render initialStore)
           message 0 1000 st);
    vm_compute; reflexivity.
Defined.

(* ------------------------------------------------------------------ *)
(** ** Sending what is captured *)

(** The four ways of [sessionPromiseRef.current?.then(...)]. *)
Lemma then_send_none (media : Media) (complaint : string) (st : Store) :
  sessionPromiseRef (refs st) = None ->
  then_send media complaint st = (st, Normal tt).
Proof. intros H. unfold then_send. rewrite bind_get, H. reflexivity. Qed.

Lemma then_send_pending (media : Media) (complaint : string) (st : Store)
    (t : nat) (tr : Transport) :
  sessionPromiseRef (refs st) = Some t ->
  transports (browser st) !! t = Some tr ->
  tr_resolved tr = false ->
  then_send media complaint st
  = (on_transports (alter (add_then media complaint) t) st, Normal tt).
Proof.
  intros H Ht Hr. unfold then_send. rewrite bind_get, H, Ht, Hr. reflexivity.
Qed.

Lemma send_or_warn_open (t : nat) (job : Media * string) (st : Store)
    (tr : Transport) :
  transports (browser st) !! t = Some tr ->
  tr_readyState tr = Open ->
  send_or_warn t job st = (on_transports (alter (add_sent job.1) t) st, Normal tt).
Proof.
  intros Ht Ho. unfold send_or_warn, sendRealtimeInput, try_catch.
  rewrite bind_get, Ht, Ho. reflexivity.
Qed.

Lemma send_or_warn_not_open (t : nat) (job : Media * string) (st : Store)
    (tr : Transport) :
  transports (browser st) !! t = Some tr ->
  tr_readyState tr <> Open ->
  send_or_warn t job st = (console_ warn job.2 st, Normal tt).
Proof.
  intros Ht Ho. unfold send_or_warn, sendRealtimeInput, try_catch.
  rewrite bind_get, Ht.
  destruct (tr_readyState tr); [reflexivity | congruence | reflexivity].
Qed.

Lemma then_send_resolved (media : Media) (complaint : string) (st : Store)
    (t : nat) (tr : Transport) :
  sessionPromiseRef (refs st) = Some t ->
  transports (browser st) !! t = Some tr ->
  tr_resolved tr = true ->
  then_send media complaint st = send_or_warn t (media, complaint) st.
Proof.
  intros H Ht Hr. unfold then_send. rewrite bind_get, H, Ht, Hr. reflexivity.
Qed.

(** X6. What becomes of a block of the microphone is decided by the
    [isMuted] its processor was installed with and by the transport that
    [sessionPromiseRef] names, and by nothing else.  Installed muted, the
    block is dropped and the store is untouched.  Installed unmuted, the
    block becomes one chunk [audio/pcm;rate=16000] whose data decodes back
    to the bytes of the block: it is put on the transport if that is open,
    it waits for the promise if that has not resolved, and if the
    transport is not open the failure is logged as a warning and nothing
    else changes. *)
Theorem X6_what_becomes_of_an_audio_block
    (decodeAudioData : list byte -> option double) (g : nat) (pcm16 : list byte)
    (st : Store) (a : AudioGraph) :
  audioGraphs (browser st) !! g = Some a ->
  ag_source_connected a = true ->
  ag_processor_connected a = true ->
  let chunk := {| mimeType := "audio/pcm;rate=16000";
                  data := Base64.uint8ArrayToBase64 pcm16 |} in
  let st' := step decodeAudioData st (audioprocess g pcm16) in
  Base64.base64ToUint8Array (data chunk) = Some pcm16
  /\ (ag_isMuted a = true -> st' = st)
  /\ (ag_isMuted a = false ->
      forall t tr,
        sessionPromiseRef (refs st) = Some t ->
        transports (browser st) !! t = Some tr ->
        (tr_resolved tr = true -> tr_readyState tr = Open ->
         st' = on_transports (alter (add_sent chunk) t) st)
        /\ (tr_resolved tr = true -> tr_readyState tr <> Open ->
            st' = console_ warn "Error sending audio input:" st)
        /\ (tr_resolved tr = false ->
            st' = on_transports
                    (alter (add_then chunk "Error sending audio input:") t) st)).
Proof.
  intros Hg Hs Hp chunk st'.
  split; [apply (Base64Facts.roundtrip_upto (length pcm16)); lia|].
  subst st'. unfold step, handler, after.
  rewrite bind_get, Hg, Hs, Hp. cbn [andb when]. unfold onaudioprocess.
  split.
  - intros ->. reflexivity.
  - intros -> t tr Hp' Ht. repeat split.
    + intros Hr Ho.
      rewrite (then_send_resolved _ _ st t tr Hp' Ht Hr).
      rewrite (send_or_warn_open t _ st tr Ht Ho). reflexivity.
    + intros Hr Ho.
      rewrite (then_send_resolved _ _ st t tr Hp' Ht Hr).
      rewrite (send_or_warn_not_open t _ st tr Ht Ho). reflexivity.
    + intros Hr.
      rewrite (then_send_pending _ _ st t tr Hp' Ht Hr). reflexivity.
Qed.

Lemma X6_what_becomes_of_an_audio_block_witness :
  let st := run decode24k (connect ++ [click_toggleMute]) initialStore in
  let st' := step decode24k st (audioprocess 0 ["M"%byte; "a"%byte]) in
  isMuted (state st) = true
  /\ st' = on_transports
             (alter (add_sent {| mimeType := "audio/pcm;rate=16000";
                                 data := "TWE=" |}) 0%nat) st.
Proof.
  intros st st'. split; [reflexivity|].
  destruct (X6_what_becomes_of_an_audio_block decode24k 0
              ["M"%byte; "a"%byte] st
              {| ag_stream := 0; ag_isMuted := false;
                 ag_source_connected := true; ag_processor_connected := true |}
              eq_refl eq_refl eq_refl) as (_ & _ & H).
  destruct (H eq_refl 0%nat
              {| tr_render := render initialStore; tr_stream := 0;
                 tr_readyState := Open; tr_resolved := true;
                 tr_thens := []; tr_sent := [] |}
              eq_refl eq_refl) as (Hopen & _).
  exact (Hopen eq_refl eq_refl).
Defined.

(** X7. A tick of the frame timer is decided by the [isVideoEnabled] the
    timer was installed with: installed with the video disabled, or when
    the canvas gives no blob, the tick does nothing; otherwise the blob
    becomes one chunk [image/jpeg], put on the open transport that
    [sessionPromiseRef] names, and a transport that is not open gets a
    warning logged and nothing else. *)
Theorem X7_what_becomes_of_a_video_tick
    (decodeAudioData : list byte -> option double) (i : nat) (blob : option string)
    (st : Store) (iv : Interval) :
  intervals (browser st) !! i = Some iv ->
  iv_active iv = true ->
  let st' := step decodeAudioData st (interval_fires i blob) in
  (iv_isVideoEnabled iv = false -> st' = st)
  /\ (blob = None -> st' = st)
  /\ (iv_isVideoEnabled iv = true ->
      forall base64 t tr,
        blob = Some base64 ->
        sessionPromiseRef (refs st) = Some t ->
        transports (browser st) !! t = Some tr ->
        tr_resolved tr = true ->
        let chunk := {| mimeType := "image/jpeg"; data := base64 |} in
        (tr_readyState tr = Open ->
         st' = on_transports (alter (add_sent chunk) t) st)
        /\ (tr_readyState tr <> Open ->
            st' = console_ warn "Error sending video frame:" st)).
Proof.
  intros Hi Ha st'. subst st'. unfold step, handler, after.
  rewrite bind_get, Hi, Ha. cbn [when]. unfold interval_callback.
  split; [|split].
  - intros ->. reflexivity.
  - intros ->. destruct (iv_isVideoEnabled iv); reflexivity.
  - intros -> base64 t tr -> Hp Ht Hr. cbn [negb].
    rewrite (then_send_resolved _ _ st t tr Hp Ht Hr).
    split; intros Ho.
    + rewrite (send_or_warn_open t _ st tr Ht Ho). reflexivity.
    + rewrite (send_or_warn_not_open t _ st tr Ht Ho). reflexivity.
Qed.

Lemma X7_what_becomes_of_a_video_tick_witness :
  let st := run decode24k (connect ++ [click_toggleVideo]) initialStore in
  let st' := step decode24k st (interval_fires 0 (Some "/9j/")) in
  isVideoEnabled (state st) = false
  /\ st' = on_transports
             (alter (add_sent {| mimeType := "image/jpeg"; data := "/9j/" |})
                    0%nat) st.
Proof.
  intros st st'. split; [reflexivity|].
  destruct (X7_what_becomes_of_a_video_tick decode24k 0 (Some "/9j/") st
              {| iv_isVideoEnabled := true; iv_active := true |}
              eq_refl eq_refl) as (_ & _ & H).
  destruct (H eq_refl "/9j/" 0%nat
              {| tr_render := render initialStore; tr_stream := 0;
                 tr_readyState := Open; tr_resolved := true;
                 tr_thens := []; tr_sent := [] |}
              eq_refl eq_refl eq_refl eq_refl) as (Hopen & _).
  exact (Hopen eq_refl).
Defined.

Lemma bind_then {A B : Type} (c : Js A) (k : A -> Js B) (st : Store) :
  (c ≫= k) st
  = match c st with
    | (st', Normal a) => k a st'
    | (st', Throw m) => (st', Throw m)
    end.
Proof. reflexivity. Qed.

(** The reactions that wait on the promise of an open transport all send. *)
Lemma run_all_sends (t : nat) (jobs : list (Media * string)) :
  forall (st : Store) (tr : Transport),
    transports (browser st) !! t = Some tr ->
    tr_readyState tr = Open ->
    exists st' tr',
      run_all (send_or_warn t <$> jobs) st = (st', Normal tt)
      /\ transports (browser st') !! t = Some tr'
      /\ tr_sent tr' = (tr_sent tr ++ (fst <$> jobs))%list
      /\ tr_thens tr' = tr_thens tr
      /\ tr_resolved tr' = tr_resolved tr
      /\ tr_readyState tr' = Open
      /\ state st' = state st /\ refs st' = refs st
      /\ console (browser st') = console (browser st).
Proof.
  induction jobs as [|job jobs IH]; intros st tr Ht Ho.
  - exists st, tr. cbn. rewrite app_nil_r. repeat split; assumption.
  - cbn [fmap list_fmap run_all]. rewrite bind_then.
    rewrite (send_or_warn_open t job st tr Ht Ho). cbv beta iota.
    destruct (IH (on_transports (alter (add_sent job.1) t) st) (add_sent job.1 tr))
      as (st' & tr' & E & Ht' & Hs & Hth & Hr & Ho' & Hst & Hre & Hco).
    { store_unfold. cbn. rewrite list_lookup_alter_eq, Ht. reflexivity. }
    { exact Ho. }
    exists st', tr'. split; [exact E|].
    repeat split; try assumption.
    rewrite Hs. cbn. rewrite <- app_assoc. reflexivity.
Qed.

(** X8. Chunks produced before the promise of [connect] has resolved are
    not lost: when it resolves on an open transport, [sessionRef] takes
    the session and the waiting chunks go out in the order they were
    produced, after what was already sent, without a warning. *)
Theorem X8_waiting_chunks_are_sent_in_order
    (decodeAudioData : list byte -> option double) (t : nat) (st : Store)
    (tr : Transport) :
  transports (browser st) !! t = Some tr ->
  tr_readyState tr = Open ->
  tr_resolved tr = false ->
  let st' := step decodeAudioData st (connect_resolves t) in
  sessionRef (refs st') = Some t
  /\ sent_on t st' = (tr_sent tr ++ (fst <$> tr_thens tr))%list
  /\ tr_thens <$> transports (browser st') !! t = Some []
  /\ tr_resolved <$> transports (browser st') !! t = Some true
  /\ console (browser st') = console (browser st)
  /\ state st' = state st.
Proof.
  intros Ht Ho Hr st'. subst st'. unfold step, handler, after, sent_on.
  rewrite bind_get, Ht.
  destruct tr as [r s rs res th se]. cbn in Ho, Hr. subst rs res.
  unfold sessionPromise_resolves. rewrite bind_get, Ht. js_run.
  cbn [tr_thens tr_sent].
  match goal with
  | |- context [run_all _ ?s0] =>
      destruct (run_all_sends t th s0
                  (set_resolved {| tr_render := r; tr_stream := s;
                                   tr_readyState := Open; tr_resolved := false;
                                   tr_thens := th; tr_sent := se |}))
        as (st' & tr' & E & Ht' & Hs & Hth & Hres & Ho' & Hst & Hre & Hco)
  end.
  { store_unfold. cbn. rewrite list_lookup_alter_eq, Ht. reflexivity. }
  { reflexivity. }
  rewrite E. cbn [fst]. rewrite Ht', Hre, Hst, Hco. cbn.
  rewrite Hs, Hth, Hres. repeat split.
Qed.

Lemma X8_waiting_chunks_are_sent_in_order_witness :
  let early := run decode24k
                 [click_startSession (Some "key") false;
                  getUserMedia_settles 0 Resolved false;
                  play_settles 0 Resolved false;
                  transport_opens 0;
                  audioprocess 0 ["M"%byte]; audioprocess 0 ["M"%byte; "a"%byte]]
                 initialStore in
  sent_on 0 early = []
  /\ data <$> sent_on 0 (step decode24k early (connect_resolves 0))
     = ["TQ=="; "TWE="].
Proof.
  intros early. split; [reflexivity|].
  destruct (X8_waiting_chunks_are_sent_in_order decode24k 0 early
              {| tr_render := render initialStore; tr_stream := 0;
                 tr_readyState := Open; tr_resolved := false;
                 tr_thens :=
                   [({| mimeType := "audio/pcm;rate=16000"; data := "TQ==" |},
                     "Error sending audio input:");
                    ({| mimeType := "audio/pcm;rate=16000"; data := "TWE=" |},
                     "Error sending audio input:")];
                 tr_sent := [] |}
              eq_refl eq_refl eq_refl) as (_ & H & _).
  rewrite H. reflexivity.
Defined.

(* ------------------------------------------------------------------ *)
(** ** The frame timer *)

Lemma one_timer_cleared (l : list Interval) (i : nat) (ref : option nat) :
  one_timer l (Some i) ->
  one_timer (alter (fun iv => {| iv_isVideoEnabled := iv_isVideoEnabled iv;
                                 iv_active := false |}) i l) ref.
Proof.
  intros H j iv Hj Ha. exfalso.
  destruct (decide (i = j)) as [<- | Hne].
  - rewrite list_lookup_alter_eq in Hj.
    destruct (l !! i); cbn in Hj; [|discriminate].
    injection Hj as <-. discriminate Ha.
  - rewrite list_lookup_alter_ne in Hj by exact Hne.
    specialize (H j iv Hj Ha). congruence.
Qed.

Lemma one_timer_none (l : list Interval) (ref : option nat) :
  one_timer l None -> one_timer l ref.
Proof. intros H j iv Hj Ha. specialize (H j iv Hj Ha). discriminate H. Qed.

Lemma one_timer_new (l : list Interval) (iv : Interval) :
  one_timer l None -> one_timer (l ++ [iv]) (Some (length l)).
Proof.
  intros H j iv' Hj Ha.
  destruct (decide (j < length l)%nat) as [Hlt | Hge].
  - rewrite lookup_app_l in Hj by exact Hlt.
    specialize (H j iv' Hj Ha). discriminate H.
  - apply lookup_lt_Some in Hj. rewrite length_app in Hj. cbn in Hj.
    f_equal. lia.
Qed.

Ltac js_compute_lists :=
  lazy -[alter insert list_alter list_insert app length lookup list_lookup
         one_timer].

Lemma stopMediaProcessing_timer_ok : preserves timer_ok stopMediaProcessing.
Proof.
  intros st H. unfold timer_ok in *.
  destruct st as [s [stream session promise actx ictx cur interval proc src] b w].
  destruct b as [ss ts gs ivs cs sch con].
  cbn in H.
  destruct interval as [i|], proc, src; js_compute_lists;
    first [apply one_timer_cleared; exact H | exact H].
Qed.

Lemma startVideoStreaming_timer_ok (r : Render) :
  preserves timer_ok (startVideoStreaming r).
Proof.
  intros st H. unfold timer_ok in *.
  destruct st as [s [stream session promise actx ictx cur interval proc src] b w].
  destruct b as [ss ts gs ivs cs sch con].
  cbn in H.
  destruct interval as [i|]; js_compute_lists.
  - apply one_timer_new, one_timer_cleared, H.
  - apply one_timer_new, H.
Qed.

Ltac timer_kept :=
  idtac;
  let st := fresh "st" in
  let H := fresh "H" in
  intros st H; unfold timer_ok in *; store_unfold; cbn; exact H.

Ltac timer_statement :=
  idtac;
  lazymatch goal with
  | |- preserves _ stopMediaProcessing => apply stopMediaProcessing_timer_ok
  | |- preserves _ (startVideoStreaming _) => apply startVideoStreaming_timer_ok
  | |- preserves _ _ => known_statement
  end.

Lemma handler_timer_ok (decodeAudioData : list byte -> option double) (e : Event) :
  preserves timer_ok (handler decodeAudioData e).
Proof.
  unfold handler.
  apply preserves_bind; [apply preserves_get | intro].
  destruct e;
    unfold onmessage, onopen, onclose, onerror, startSession,
      startSession_after_getUserMedia, startSession_after_play,
      sessionPromise_resolves, startSession_catch, stopSession,
      initializeAudioContexts, toggleMute, toggleVideo, startAudioInput,
      onaudioprocess, interval_callback, then_send, send_or_warn,
      sendRealtimeInput, close, await_at;
    preserves_steps timer_kept timer_statement.
Qed.

(** X9. There is never more than one frame timer running: in every store
    the component can reach, an active interval is the one that
    [frameIntervalRef] holds, so two active intervals are the same one,
    and after a stop or a close, which empty the ref, none is active. *)
Theorem X9_at_most_one_frame_timer (decodeAudioData : list byte -> option double)
    (events : list Event) :
  let st := run decodeAudioData events initialStore in
  (forall i iv,
     intervals (browser st) !! i = Some iv -> iv_active iv = true ->
     frameIntervalRef (refs st) = Some i)
  /\ (forall i j iv iv',
        intervals (browser st) !! i = Some iv -> iv_active iv = true ->
        intervals (browser st) !! j = Some iv' -> iv_active iv' = true ->
        i = j).
Proof.
  intros st.
  assert (timer_ok st) as H.
  { apply (run_preserves timer_ok).
    - apply handler_timer_ok.
    - intros i iv Hi. discriminate Hi. }
  split; [exact H|].
  intros i j iv iv' Hi Ha Hj Ha'.
  pose proof (H i iv Hi Ha) as E1. pose proof (H j iv' Hj Ha') as E2.
  congruence.
Qed.

(* ------------------------------------------------------------------ *)
(** ** What a stop and a close release *)

(** X10. [stopSession] releases exactly what the refs hold: the tracks of
    the stream in [streamRef] are stopped, the interval in
    [frameIntervalRef] is cleared, the processor and the source in
    [processorRef] and [sourceRef] are disconnected, and these refs are
    emptied.  Streams, intervals and audio graphs that no ref holds are
    left as they are; the audio contexts, the playback cursor, what is
    scheduled for playback and the error message are not touched. *)
Theorem X10_stop_releases_what_the_refs_hold (close_throws : bool) (st : Store) :
  let st1 := after (stopSession close_throws) st in
  streams (browser st1)
  = match streamRef (refs st) with
    | Some stream => <[stream := false]> (streams (browser st))
    | None => streams (browser st)
    end
  /\ intervals (browser st1)
     = match frameIntervalRef (refs st) with
       | Some i => intervals (browser (clearInterval i st))
       | None => intervals (browser st)
       end
  /\ audioGraphs (browser st1)
     = audioGraphs
         (browser
            (match sourceRef (refs st) with
             | Some g => disconnect_source g
             | None => fun st => st
             end
               (match processorRef (refs st) with
                | Some g => disconnect_processor g
                | None => fun st => st
                end st)))
  /\ (streamRef (refs st1) = None /\ frameIntervalRef (refs st1) = None
      /\ processorRef (refs st1) = None /\ sourceRef (refs st1) = None)
  /\ (audioContextRef (refs st1) = audioContextRef (refs st)
      /\ inputAudioContextRef (refs st1) = inputAudioContextRef (refs st)
      /\ nextStartTimeRef (refs st1) = nextStartTimeRef (refs st)
      /\ scheduled (browser st1) = scheduled (browser st)
      /\ errorMsg (state st1) = errorMsg (state st)).
Proof.
  destruct st as [s [stream session promise actx ictx cur interval proc src] b w].
  destruct b as [ss ts gs ivs cs sch con].
  destruct stream, session, interval, proc, src, close_throws;
    js_compute; repeat split.
Qed.

(** X11. [stopSession] closes the session that [sessionRef] holds and no
    other: when [close()] throws, the transport stays as it is, the
    warning "Failed to close session:" is logged and the stop goes on;
    when [sessionRef] is empty, as it is until the promise of [connect]
    has resolved, no transport is closed at all.  In every case
    [sessionRef] ends up empty and [sessionPromiseRef] keeps its value. *)
Theorem X11_stop_closes_the_session_in_sessionRef (close_throws : bool) (st : Store) :
  let st1 := after (stopSession close_throws) st in
  transports (browser st1)
  = match sessionRef (refs st), close_throws with
    | Some session, false =>
        alter (set_readyState Closed) session (transports (browser st))
    | _, _ => transports (browser st)
    end
  /\ console (browser st1)
     = match sessionRef (refs st), close_throws with
       | Some session, true =>
           (console (browser st) ++ [(warn, "Failed to close session:")])%list
       | _, _ => console (browser st)
       end
  /\ sessionRef (refs st1) = None
  /\ sessionPromiseRef (refs st1) = sessionPromiseRef (refs st).
Proof.
  destruct st as [s [stream session promise actx ictx cur interval proc src] b w].
  destruct b as [ss ts gs ivs cs sch con].
  destruct stream, session, interval, proc, src, close_throws;
    js_compute; repeat split.
Qed.

(** X12. When the transport closes on its own, [onclose] shuts down the
    frame timer and the audio graph and sets [DISCONNECTED]: the interval
    in [frameIntervalRef] is cleared, the processor and the source in
    [processorRef] and [sourceRef] are disconnected, intervals and audio
    graphs that no ref holds are left as they are, and these refs are
    emptied.  But it releases no device: the tracks of the stream stay
    live, [streamRef] and [sessionRef] keep their values, and the pending
    transcription, the messages and the error message stay as they are. *)
Theorem X12_onclose_keeps_the_devices (st : Store) :
  let st1 := after onclose st in
  connectionState (state st1) = DISCONNECTED
  /\ intervals (browser st1)
     = match frameIntervalRef (refs st) with
       | Some i => intervals (browser (clearInterval i st))
       | None => intervals (browser st)
       end
  /\ audioGraphs (browser st1)
     = audioGraphs
         (browser
            (match sourceRef (refs st) with
             | Some g => disconnect_source g
             | None => fun st => st
             end
               (match processorRef (refs st) with
                | Some g => disconnect_processor g
                | None => fun st => st
                end st)))
  /\ (frameIntervalRef (refs st1) = None /\ processorRef (refs st1) = None
      /\ sourceRef (refs st1) = None)
  /\ (streams (browser st1) = streams (browser st)
      /\ streamRef (refs st1) = streamRef (refs st)
      /\ sessionRef (refs st1) = sessionRef (refs st)
      /\ transports (browser st1) = transports (browser st))
  /\ (currentTranscription (state st1) = currentTranscription (state st)
      /\ messages (state st1) = messages (state st)
      /\ errorMsg (state st1) = errorMsg (state st))
  /\ console (browser st1)
     = (console (browser st) ++ [(log, "Gemini Live Session Closed")])%list.
Proof.
  destruct st as [s [stream session promise actx ictx cur interval proc src] b w].
  destruct b as [ss ts gs ivs cs sch con].
  destruct interval, proc, src; js_compute; repeat split.
Qed.

(* ------------------------------------------------------------------ *)
(** ** The steps of a start *)

Lemma try_catch_throw {A : Type} (m : string) (h : string -> Js A) (st : Store) :
  try_catch (throw m) h st = h m st.
Proof. reflexivity. Qed.

Lemma stopSession_streams (close_throws : bool) (st : Store) :
  streams (browser (fst (stopSession close_throws st)))
  = match streamRef (refs st) with
    | Some stream => <[stream := false]> (streams (browser st))
    | None => streams (browser st)
    end.
Proof.
  destruct st as [s [stream session promise actx ictx cur interval proc src] b w].
  destruct b as [ss ts gs ivs cs sch con].
  destruct stream, session, interval, proc, src, close_throws;
    js_compute; reflexivity.
Qed.

(** What the [catch] block of [startSession] leaves. *)
Lemma startSession_catch_leaves (close_throws : bool) (message : string) (st : Store) :
  let st' := fst (startSession_catch close_throws message st) in
  connectionState (state st') = DISCONNECTED
  /\ errorMsg (state st')
     = Some (or_else message "Failed to access camera/microphone or connect.")
  /\ startCalls (browser st') = startCalls (browser st)
  /\ length (transports (browser st')) = length (transports (browser st))
  /\ streams (browser st')
     = match streamRef (refs st) with
       | Some stream => <[stream := false]> (streams (browser st))
       | None => streams (browser st)
       end
  /\ streamRef (refs st') = None.
Proof.
  intros st'. subst st'. unfold startSession_catch. js_run.
  match goal with
  | |- context [stopSession close_throws ?s] =>
      pose proof (stopSession_streams close_throws s) as Hstr;
      destruct (stopSession_completes close_throws s)
        as (st1 & E & Hc & _ & _ & He & Hsr & _ & _ & _ & _ & _ & Hs & Ht & _);
      rewrite E in *
  end.
  cbn [fst] in *. rewrite Hc, He, Hs, Ht, Hstr, Hsr.
  store_unfold. cbn. repeat split.
Qed.

(** X13. When [getUserMedia] settles for a [startSession] that waits for
    it: a rejection acquires nothing, ends in [DISCONNECTED] and shows the
    message of the rejection, or "Failed to access camera/microphone or
    connect." when that message is empty; a resolution adds one live
    stream, puts it in [streamRef] and waits for [play()], and the
    connection state stays what it was. *)
Theorem X13_getUserMedia_settles (decodeAudioData : list byte -> option double)
    (call : nat) (c : StartCall) (close_throws : bool) (st : Store) :
  startCalls (browser st) !! call = Some c ->
  sc_await c = AwaitGetUserMedia ->
  (forall message,
     let st' := step decodeAudioData st
                  (getUserMedia_settles call (Rejected message) close_throws) in
     connectionState (state st') = DISCONNECTED
     /\ errorMsg (state st')
        = Some (or_else message "Failed to access camera/microphone or connect.")
     /\ length (streams (browser st')) = length (streams (browser st))
     /\ length (transports (browser st')) = length (transports (browser st))
     /\ sc_await <$> startCalls (browser st') !! call = Some Settled)
  /\ (let st' := step decodeAudioData st
                   (getUserMedia_settles call Resolved close_throws) in
      let stream := length (streams (browser st)) in
      streams (browser st') = (streams (browser st) ++ [true])%list
      /\ streamRef (refs st') = Some stream
      /\ sc_await <$> startCalls (browser st') !! call = Some (AwaitPlay stream)
      /\ state st' = state st
      /\ transports (browser st') = transports (browser st)).
Proof.
  intros Hc Ha. split.
  - intros message st'. subst st'.
    unfold step, handler, after. rewrite bind_get.
    unfold startSession_after_getUserMedia. rewrite bind_get, Hc.
    cbn [fmap option_fmap option_map]. rewrite Ha. js_run.
    rewrite try_catch_throw.
    match goal with
    | |- context [startSession_catch close_throws message ?s] =>
        destruct (startSession_catch_leaves close_throws message s)
          as (H1 & H2 & H3 & H4 & H5 & _)
    end.
    rewrite H1, H2, H3, H4, H5.
    repeat split.
    + store_unfold. cbn. destruct (streamRef (refs st)); [|reflexivity].
      apply length_insert.
    + unfold await_at. store_unfold. cbn.
      rewrite list_lookup_alter_eq, Hc. reflexivity.
  - intros st' stream. subst st' stream.
    unfold step, handler, after. rewrite bind_get.
    unfold startSession_after_getUserMedia. rewrite bind_get, Hc.
    cbn [fmap option_fmap option_map]. rewrite Ha. js_run.
    unfold try_catch. js_run. cbn [fst].
    unfold await_at. store_unfold. cbn.
    repeat split.
    rewrite !list_lookup_alter_eq, Hc. reflexivity.
Qed.

Lemma X13_getUserMedia_settles_witness :
  let st := run decode24k [click_startSession (Some "key") false] initialStore in
  errorMsg (state (step decode24k st (getUserMedia_settles 0 (Rejected "") false)))
  = Some "Failed to access camera/microphone or connect."
  /\ streams (browser (step decode24k st (getUserMedia_settles 0 Resolved false)))
     = [true].
Proof.
  intros st.
  destruct (X13_getUserMedia_settles decode24k 0
              {| sc_render := render initialStore; sc_apiKey := "key";
                 sc_await := AwaitGetUserMedia |}
              false st eq_refl eq_refl) as (Hrej & Hres).
  split.
  - exact (proj1 (proj2 (Hrej ""))).
  - exact (proj1 Hres).
Defined.

(** X14. When [play()] settles for a [startSession] that waits for it: a
    rejection opens no transport, ends in [DISCONNECTED] with the message
    shown, and stops the tracks of the stream in [streamRef], so that the
    stream this call acquired does not linger if it is still the one in
    the ref; a resolution opens exactly one transport, in handshake, with
    the callbacks of the render that called [startSession], and puts its
    promise in [sessionPromiseRef] while [sessionRef] keeps its value. *)
Theorem X14_play_settles (decodeAudioData : list byte -> option double)
    (call : nat) (c : StartCall) (stream : nat) (close_throws : bool) (st : Store) :
  startCalls (browser st) !! call = Some c ->
  sc_await c = AwaitPlay stream ->
  (forall message,
     let st' := step decodeAudioData st
                  (play_settles call (Rejected message) close_throws) in
     connectionState (state st') = DISCONNECTED
     /\ errorMsg (state st')
        = Some (or_else message "Failed to access camera/microphone or connect.")
     /\ length (transports (browser st')) = length (transports (browser st))
     /\ streamRef (refs st') = None
     /\ (streamRef (refs st) = Some stream ->
         streams (browser st') = <[stream := false]> (streams (browser st))))
  /\ (let st' := step decodeAudioData st (play_settles call Resolved close_throws) in
      transports (browser st')
      = (transports (browser st)
           ++ [{| tr_render := sc_render c; tr_stream := stream;
                  tr_readyState := Handshaking; tr_resolved := false;
                  tr_thens := []; tr_sent := [] |}])%list
      /\ sessionPromiseRef (refs st') = Some (length (transports (browser st)))
      /\ sessionRef (refs st') = sessionRef (refs st)
      /\ state st' = state st
      /\ streams (browser st') = streams (browser st)).
Proof.
  intros Hc Ha. destruct c as [r key aw]. cbn in Ha. subst aw. split.
  - intros message st'. subst st'.
    unfold step, handler, after. rewrite bind_get.
    unfold startSession_after_play. rewrite bind_get, Hc. js_run.
    rewrite try_catch_throw.
    match goal with
    | |- context [startSession_catch close_throws message ?s] =>
        destruct (startSession_catch_leaves close_throws message s)
          as (H1 & H2 & _ & H4 & H5 & H6)
    end.
    rewrite H1, H2, H4, H5, H6.
    unfold await_at. store_unfold. cbn.
    repeat split. intros ->. reflexivity.
  - intros st'. subst st'.
    unfold step, handler, after. rewrite bind_get.
    unfold startSession_after_play. rewrite bind_get, Hc. js_run.
    unfold try_catch. js_run. cbn [fst].
    unfold await_at. store_unfold. cbn.
    repeat split.
Qed.

Lemma X14_play_settles_witness :
  let st := run decode24k
              [click_startSession (Some "key") false;
               getUserMedia_settles 0 Resolved false]
              initialStore in
  streams (browser
             (step decode24k st (play_settles 0 (Rejected "NotAllowedError") false)))
  = [false]
  /\ tr_readyState
       <$> transports (browser (step decode24k st (play_settles 0 Resolved false)))
     = [Handshaking].
Proof.
  intros st.
  destruct (X14_play_settles decode24k 0
              {| sc_render := render initialStore; sc_apiKey := "key";
                 sc_await := AwaitPlay 0 |}
              0 false st eq_refl eq_refl) as (Hrej & Hres).
  split.
  - destruct (Hrej "NotAllowedError") as (_ & _ & _ & _ & H).
    rewrite (H eq_refl). reflexivity.
  - destruct Hres as (H & _). rewrite H. reflexivity.
Defined.

(** X15. When a transport in handshake opens, the state becomes
    [CONNECTED] and, the input audio context being there, one audio graph
    and one frame timer are installed and put in the refs, the interval
    that [frameIntervalRef] held being cleared first.  The graph is on the
    stream of the [startSession] call that opened the transport, and the
    [isMuted] and [isVideoEnabled] the two callbacks will test are those
    of the render that made that call, not the current ones. *)
Theorem X15_onopen_installs_the_capture (decodeAudioData : list byte -> option double)
    (t : nat) (tr : Transport) (st : Store) :
  transports (browser st) !! t = Some tr ->
  tr_readyState tr = Handshaking ->
  is_set (inputAudioContextRef (refs st)) = true ->
  let st' := step decodeAudioData st (transport_opens t) in
  connectionState (state st') = CONNECTED
  /\ transports (browser st')
     = alter (set_readyState Open) t (transports (browser st))
  /\ audioGraphs (browser st')
     = (audioGraphs (browser st)
          ++ [{| ag_stream := tr_stream tr;
                 ag_isMuted := r_isMuted (tr_render tr);
                 ag_source_connected := true;
                 ag_processor_connected := true |}])%list
  /\ (processorRef (refs st') = Some (length (audioGraphs (browser st)))
      /\ sourceRef (refs st') = Some (length (audioGraphs (browser st))))
  /\ intervals (browser st')
     = (match frameIntervalRef (refs st) with
        | Some i => intervals (browser (clearInterval i st))
        | None => intervals (browser st)
        end
          ++ [{| iv_isVideoEnabled := r_isVideoEnabled (tr_render tr);
                 iv_active := true |}])%list
  /\ frameIntervalRef (refs st') = Some (length (intervals (browser st)))
  /\ (isMuted (state st') = isMuted (state st)
      /\ isVideoEnabled (state st') = isVideoEnabled (state st)).
Proof.
  intros Ht Hh Hi st'. subst st'.
  unfold step, handler, after. rewrite bind_get, Ht.
  destruct tr as [r s rs res th se]. cbn in Hh. subst rs.
  cbn [tr_stream tr_render].
  destruct st as [sta [stream session promise actx ictx cur interval proc src] b w].
  destruct b as [ss ts gs ivs cs sch con].
  destruct ictx as [ictx|]; [|discriminate Hi].
  destruct interval as [i|]; js_compute_lists;
    repeat split; rewrite ?length_alter; reflexivity.
Qed.

Lemma X15_onopen_installs_the_capture_witness :
  let st := run decode24k
              [click_startSession (Some "key") false;
               getUserMedia_settles 0 Resolved false;
               play_settles 0 Resolved false]
              initialStore in
  let st' := step decode24k st (transport_opens 0) in
  connectionState (state st') = CONNECTED
  /\ audioGraphs (browser st')
     = [{| ag_stream := 0; ag_isMuted := false;
           ag_source_connected := true; ag_processor_connected := true |}].
Proof.
  intros st st'.
  destruct (X15_onopen_installs_the_capture decode24k 0
              {| tr_render := render initialStore; tr_stream := 0;
                 tr_readyState := Handshaking; tr_resolved := false;
                 tr_thens := []; tr_sent := [] |}
              st eq_refl eq_refl eq_refl) as (H1 & _ & H3 & _).
  split; [exact H1 | exact H3].
Defined.

(* ------------------------------------------------------------------ *)
(** ** The cursor and the schedule over time *)

Ltac playback_after_kept :=
  idtac;
  let st := fresh "st" in
  let H := fresh "H" in
  intros st H; unfold playback_after in *; store_unfold; cbn; exact H.

Lemma handleServerMessage_playback_after
    (decodeAudioData : list byte -> option double)
    (before : list (double * double)) (c : double)
    (r : Render) (message : LiveServerMessage) (currentTime : double) (now : Z) :
  preserves (playback_after before c)
            (handleServerMessage decodeAudioData r message currentTime now).
Proof.
  unfold handleServerMessage.
  apply preserves_bind; [apply preserves_get | intros st0].
  apply preserves_bind.
  - apply preserves_when.
    apply preserves_bind_option. intros bytes _.
    apply preserves_bind_option. intros d Hd.
    intros st [P C].
    pose proof (Math_max_ge_r currentTime (nextStartTimeRef (refs st))) as Hmax.
    rewrite bind_get. cbv zeta. rewrite bind_exec. unfold exec. cbn [fst].
    revert Hmax. generalize (Math_max currentTime (nextStartTimeRef (refs st))).
    intros m Hmax. pose proof (double_add_ge m d) as Hadd.
    split; store_unfold; cbn [scheduled browser nextStartTimeRef refs].
    + apply prefix_app_r, P.
    + eauto using double_le_trans.
  - intros _. preserves_steps playback_after_kept fail.
Qed.

Lemma handler_playback_after
    (decodeAudioData : list byte -> option double)
    (before : list (double * double)) (c : double) (e : Event) :
  preserves (playback_after before c) (handler decodeAudioData e).
Proof.
  every_handler_using playback_after_kept
    ltac:(idtac;
          lazymatch goal with
          | |- preserves ?I (exec (after ?h)) =>
              apply preserves_exec; change (preserves I h);
              apply handleServerMessage_playback_after
          | |- preserves _ _ => known_statement
          end).
Qed.

(** X16. Nothing ever takes a frame off the schedule or moves the cursor
    back: along every run, stops, closes, errors and new sessions
    included, what was scheduled stays scheduled, in the same order at the
    head of the schedule, and the cursor only grows, durations being
    doubles that are never negative and the sum of doubles never falling
    below its first term.  A stop cancels no playback, and a new session
    starts behind the cursor of the one before. *)
Theorem X16_schedule_and_cursor_only_grow
    (decodeAudioData : list byte -> option double) (events : list Event) (st : Store) :
  let st' := run decodeAudioData events st in
  scheduled (browser st) `prefix_of` scheduled (browser st')
  /\ double_le (cursor st) (cursor st').
Proof.
  intros st'.
  apply (run_preserves
           (playback_after (scheduled (browser st)) (cursor st)) decodeAudioData).
  - intros e. apply handler_playback_after.
  - split; [reflexivity | apply double_le_refl].
Qed.

Lemma X16_schedule_and_cursor_only_grow_witness :
  let st := run decode24k (connect ++ [frame 1000 four_samples]) initialStore in
  let st' := run decode24k
               [click_stopSession false; click_startSession (Some "key") false]
               st in
  scheduled (browser st) `prefix_of` scheduled (browser st')
  /\ double_le (double_div 4 24000) (cursor st').
Proof.
  intros st st'.
  assert (cursor st = double_div 4 24000) as E by (vm_compute; reflexivity).
  rewrite <- E.
  exact (X16_schedule_and_cursor_only_grow decode24k
           [click_stopSession false; click_startSession (Some "key") false]
           st).
Defined.

(* ------------------------------------------------------------------ *)
(** ** What [CONNECTED] means *)

Lemma some_open_alter_keep (f : Transport -> Transport) (t : nat)
    (l : list Transport) :
  (forall tr, tr_readyState (f tr) = tr_readyState tr) ->
  some_open l -> some_open (alter f t l).
Proof.
  intros Hf (t' & tr & Ht & Ho).
  destruct (decide (t = t')) as [<- | Hne].
  - exists t, (f tr). rewrite list_lookup_alter_eq, Ht. split; [reflexivity|].
    rewrite Hf. exact Ho.
  - exists t', tr. rewrite list_lookup_alter_ne by exact Hne. split; assumption.
Qed.

Lemma some_open_app (l : list Transport) (tr : Transport) :
  some_open l -> some_open (l ++ [tr]).
Proof.
  intros (t & tr' & Ht & Ho). exists t, tr'. split; [|exact Ho].
  apply lookup_app_l_Some, Ht.
Qed.

Lemma preserves_get_bind (I : Store -> Prop) {B : Type} (k : Store -> Js B) :
  (forall st, I st -> I (fst (k st st))) -> preserves I (get ≫= k).
Proof. intros H st Hst. rewrite bind_get. apply H, Hst. Qed.

Lemma onclose_disconnects (st : Store) :
  connectionState (state (fst (onclose st))) = DISCONNECTED.
Proof.
  destruct st as [s [stream session promise actx ictx cur interval proc src] b w].
  destruct interval, proc, src; js_compute; reflexivity.
Qed.

Lemma stopSession_disconnects (close_throws : bool) (st : Store) :
  connectionState (state (fst (stopSession close_throws st))) = DISCONNECTED.
Proof.
  destruct (stopSession_completes close_throws st) as (st1 & E & Hc & _).
  rewrite E. exact Hc.
Qed.

Lemma stopSession_connected_ok (close_throws : bool) :
  preserves connected_ok (stopSession close_throws).
Proof.
  intros st _ X. rewrite stopSession_disconnects in X. discriminate X.
Qed.

Lemma startSession_catch_connected_ok (close_throws : bool) (message : string) :
  preserves connected_ok (startSession_catch close_throws message).
Proof.
  intros st _ X. unfold startSession_catch in X. revert X. js_run.
  rewrite stopSession_disconnects. discriminate.
Qed.

Lemma onerror_connected_ok (close_throws : bool) (st : Store) :
  connected_ok (fst (onerror close_throws st)).
Proof.
  intros X. unfold onerror in X. revert X. js_run.
  rewrite stopSession_disconnects. discriminate.
Qed.

Lemma onclose_connected_ok (st : Store) : connected_ok (fst (onclose st)).
Proof. intros X. rewrite onclose_disconnects in X. discriminate X. Qed.

Ltac open_kept :=
  idtac;
  let st := fresh "st" in
  let H := fresh "H" in
  intros st H; unfold open_st in *; store_unfold; cbn; exact H.

Lemma onopen_keeps_open (r : Render) (stream : nat) :
  preserves open_st (onopen r stream).
Proof.
  unfold onopen, startAudioInput, startVideoStreaming.
  preserves_steps open_kept fail.
Qed.

Ltac connected_kept :=
  idtac;
  let st := fresh "st" in
  let H := fresh "H" in
  let X := fresh "X" in
  intros st H; unfold connected_ok, open_st in *; store_unfold; cbn;
  first
    [ exact H
    | intro X; discriminate X
    | intro X; apply some_open_alter_keep;
      [intros []; reflexivity | exact (H X)]
    | intro X; apply some_open_app; exact (H X) ].

Ltac connected_statement :=
  idtac;
  lazymatch goal with
  | |- preserves _ (stopSession _) => apply stopSession_connected_ok
  | |- preserves _ (startSession_catch _ _) => apply startSession_catch_connected_ok
  | |- preserves _ _ => known_statement
  end.

Lemma handler_connected_ok (decodeAudioData : list byte -> option double) (e : Event) :
  preserves connected_ok (handler decodeAudioData e).
Proof.
  unfold handler. destruct e.
  11: { (* the transport fails *)
    apply preserves_get_bind. intros st Hst.
    destruct (transports (browser st) !! t) as [tr|]; [|exact Hst].
    destruct (is_active tr); [|exact Hst].
    rewrite bind_exec. apply onerror_connected_ok. }
  10: { (* the transport closes *)
    apply preserves_get_bind. intros st Hst.
    destruct (transports (browser st) !! t) as [tr|]; [|exact Hst].
    rewrite bind_exec. apply onclose_connected_ok. }
  7: { (* the transport opens *)
    apply preserves_get_bind. intros st Hst.
    destruct (transports (browser st) !! t) as [[r s rs res th se]|] eqn:Ht;
      [|exact Hst].
    destruct rs; try exact Hst.
    rewrite bind_exec. intros _. apply onopen_keeps_open.
    exists t, (set_readyState Open
                 {| tr_render := r; tr_stream := s; tr_readyState := Handshaking;
                    tr_resolved := res; tr_thens := th; tr_sent := se |}).
    store_unfold. cbn. rewrite list_lookup_alter_eq, Ht. split; reflexivity. }
  all: apply preserves_bind; [apply preserves_get | intro];
    unfold onmessage, startSession, startSession_after_getUserMedia,
      startSession_after_play, sessionPromise_resolves, toggleMute,
      toggleVideo, initializeAudioContexts, onaudioprocess,
      interval_callback, then_send, send_or_warn, sendRealtimeInput, await_at;
    preserves_steps connected_kept connected_statement.
Qed.

(** X17. The state is [CONNECTED] only while some transport is open: in
    every store the component can reach, if the connection state is
    [CONNECTED] then a transport is open.  Every way a transport stops
    being open (a close, an error, a stop) leaves the state
    [DISCONNECTED]. *)
Theorem X17_connected_means_an_open_transport
    (decodeAudioData : list byte -> option double) (events : list Event) :
  let st := run decodeAudioData events initialStore in
  connectionState (state st) = CONNECTED ->
  exists t tr,
    transports (browser st) !! t = Some tr /\ tr_readyState tr = Open.
Proof.
  intros st.
  apply (run_preserves connected_ok decodeAudioData).
  - apply handler_connected_ok.
  - intros X. discriminate X.
Qed.

Lemma X17_connected_means_an_open_transport_witness :
  exists t tr,
    transports (browser (run decode24k connect initialStore)) !! t = Some tr
    /\ tr_readyState tr = Open.
Proof.
  exact (X17_connected_means_an_open_transport decode24k connect eq_refl).
Defined.

(* ------------------------------------------------------------------ *)
(** ** What the callbacks of a session see *)

Lemma lookup_alter_keep {A B : Type} (p : A -> B) (f : A -> A) (i j : nat)
    (l : list A) (b : B) :
  (forall a, p (f a) = p a) ->
  p <$> l !! j = Some b -> p <$> alter f i l !! j = Some b.
Proof.
  intros Hf H. destruct (decide (i = j)) as [<- | Hne].
  - rewrite list_lookup_alter_eq. destruct (l !! i); cbn in *; [|discriminate].
    now rewrite Hf.
  - now rewrite list_lookup_alter_ne.
Qed.

Lemma lookup_app_keep {A B : Type} (p : A -> B) (j : nat) (l : list A) (a : A)
    (b : B) :
  p <$> l !! j = Some b -> p <$> ((l ++ [a])%list) !! j = Some b.
Proof.
  intros H. destruct (l !! j) as [x|] eqn:E; [|discriminate H].
  now rewrite (lookup_app_l_Some _ _ _ _ E).
Qed.

Ltac captures_kept :=
  idtac;
  let st := fresh "st" in
  let H := fresh "H" in
  intros st H; unfold captures in *; store_unfold; cbn;
  destruct H as (? & ? & ?);
  repeat split;
  first
    [ assumption
    | apply lookup_alter_keep; [intros []; reflexivity | assumption]
    | apply lookup_app_keep; assumption ].

Lemma handler_keeps_captures (decodeAudioData : list byte -> option double)
    (g : nat) (muted : bool) (i : nat) (video : bool) (t : nat) (r : Render)
    (e : Event) :
  preserves (captures g muted i video t r) (handler decodeAudioData e).
Proof. every_handler captures_kept. Qed.

(** X18. What the callbacks of a session test is fixed when they are
    installed: whatever happens afterwards, toggles of the microphone and
    of the video included, an audio graph keeps the [isMuted] it was
    installed with, an interval its [isVideoEnabled], and a transport the
    render, hence the [currentTranscription], of the [startSession] call
    that opened it. *)
Theorem X18_captured_values_never_change
    (decodeAudioData : list byte -> option double) (events : list Event) (st : Store)
    (g i t : nat) (a : AudioGraph) (iv : Interval) (tr : Transport) :
  audioGraphs (browser st) !! g = Some a ->
  intervals (browser st) !! i = Some iv ->
  transports (browser st) !! t = Some tr ->
  let st' := run decodeAudioData events st in
  ag_isMuted <$> audioGraphs (browser st') !! g = Some (ag_isMuted a)
  /\ iv_isVideoEnabled <$> intervals (browser st') !! i
     = Some (iv_isVideoEnabled iv)
  /\ tr_render <$> transports (browser st') !! t = Some (tr_render tr).
Proof.
  intros Hg Hi Ht st'.
  apply (run_preserves
           (captures g (ag_isMuted a) i (iv_isVideoEnabled iv) t (tr_render tr))
           decodeAudioData).
  - intros e. apply handler_keeps_captures.
  - unfold captures. rewrite Hg, Hi, Ht. repeat split.
Qed.

Lemma X18_captured_values_never_change_witness :
  let st := run decode24k connect initialStore in
  let st' := run decode24k
               [click_toggleMute; click_toggleVideo;
                transport_message 0 (TranscriptDelta "Hi") 0 1000]
               st in
  (isMuted (state st') = true /\ isVideoEnabled (state st') = false
   /\ currentTranscription (state st') = "Hi")
  /\ ag_isMuted <$> audioGraphs (browser st') !! 0%nat = Some false
  /\ iv_isVideoEnabled <$> intervals (browser st') !! 0%nat = Some true
  /\ r_currentTranscription <$> (tr_render <$> transports (browser st') !! 0%nat)
     = Some "".
Proof.
  intros st st'.
  split; [repeat split|].
  destruct (X18_captured_values_never_change decode24k
              [click_toggleMute; click_toggleVideo;
               transport_message 0 (TranscriptDelta "Hi") 0 1000]
              st 0 0 0
              {| ag_stream := 0; ag_isMuted := false;
                 ag_source_connected := true; ag_processor_connected := true |}
              {| iv_isVideoEnabled := true; iv_active := true |}
              {| tr_render := render initialStore; tr_stream := 0;
                 tr_readyState := Open; tr_resolved := true;
                 tr_thens := []; tr_sent := [] |}
              eq_refl eq_refl eq_refl) as (H1 & H2 & H3).
  split; [exact H1 | split; [exact H2|]].
  fold st' in H3. rewrite H3. reflexivity.
Defined.

(* ------------------------------------------------------------------ *)
(** ** Starting with a key *)

(** X19. With a key, [startSession] clears the error message, sets
    [CONNECTING], leaves both audio contexts running, creating the ones
    that are missing and resuming the suspended ones, and asks for the
    camera and the microphone.  It stops nothing on the way: the streams,
    the transports, [streamRef], [sessionRef], the messages and the
    pending transcription are as before, also when a session is already
    running. *)
Theorem X19_start_with_a_key (r : Render) (c : ascii) (key : string)
    (close_throws : bool) (st : Store) :
  let st' := after (startSession r (Some (String c key)) close_throws) st in
  connectionState (state st') = CONNECTING
  /\ errorMsg (state st') = None
  /\ contexts_running st'
  /\ startCalls (browser st')
     = (startCalls (browser st)
          ++ [{| sc_render := r; sc_apiKey := String c key;
                 sc_await := AwaitGetUserMedia |}])%list
  /\ (streams (browser st') = streams (browser st)
      /\ transports (browser st') = transports (browser st)
      /\ streamRef (refs st') = streamRef (refs st)
      /\ sessionRef (refs st') = sessionRef (refs st)
      /\ sessionPromiseRef (refs st') = sessionPromiseRef (refs st))
  /\ (messages (state st') = messages (state st)
      /\ currentTranscription (state st') = currentTranscription (state st)).
Proof.
  destruct st as [s [stream session promise actx ictx cur interval proc src] b w].
  destruct b as [ss ts gs ivs cs sch con].
  destruct actx as [[]|], ictx as [[]|]; js_compute; repeat split.
Qed.

(* ------------------------------------------------------------------ *)
(** ** The buttons *)

(** X21. A start button is on the page in every state but one:
    [CONNECTED] with the video enabled.  "End Session" and the toggles are
    there exactly in [CONNECTED].  So some control is always offered, a
    start is offered during [CONNECTING], and with the video disabled a
    connected session offers both to start and to end. *)
Theorem X21_which_buttons_are_rendered (s : State) :
  start_button_rendered s
  = negb (is_CONNECTED (connectionState s) && isVideoEnabled s)
  /\ (stop_button_rendered s = true <-> connectionState s = CONNECTED)
  /\ start_button_rendered s || stop_button_rendered s = true
  /\ (connectionState s = CONNECTING -> start_button_rendered s = true)
  /\ (connectionState s = CONNECTED -> isVideoEnabled s = false ->
      start_button_rendered s = true /\ stop_button_rendered s = true).
Proof.
  destruct s as [c m v ms ct e].
  unfold start_button_rendered, stop_button_rendered. cbn.
  destruct c, v; cbn; repeat split; congruence.
Qed.

(* ------------------------------------------------------------------ *)
(** ** A turn-complete on a session that saw text when it started *)

(** X22. When the [currentTranscription] of the render that started the
    session is not blank, a turn-complete appends one message, whose text
    is that [currentTranscription] and not the pending one, whose id and
    timestamp are the wall clock, and empties the pending
    transcription. *)
Theorem X22_turn_complete_finalizes_the_captured_text
    (decodeAudioData : list byte -> option double) (r : Render)
    (currentTime : double) (now : Z) (st : Store) :
  blank (r_currentTranscription r) = false ->
  let st' := after (handleServerMessage decodeAudioData r TurnComplete
                      currentTime now) st in
  messages (state st')
  = (messages (state st)
       ++ [{| id := toString now; role := model;
              text := r_currentTranscription r;
              timestamp := now; isFinal := None |}])%list
  /\ currentTranscription (state st') = "".
Proof.
  intros Hb st'. subst st'.
  assert (truthy (trim (r_currentTranscription r)) = true) as Ht.
  { destruct (trim (r_currentTranscription r)) eqn:E; [|reflexivity].
    apply trim_blank in E. congruence. }
  unfold handleServerMessage, after, TurnComplete.
  cbn [audioData outputTranscript inputTranscript turnComplete truthy_opt
       andb orb].
  rewrite Ht. js_run. cbn [fst]. split; reflexivity.
Qed.

Lemma X22_turn_complete_finalizes_the_captured_text_witness :
  let r := {| r_isMuted := false; r_isVideoEnabled := true;
              r_currentTranscription := "Hi" |} in
  let st' := after (handleServerMessage decode24k r TurnComplete 0 2000)
                   (setCurrentTranscription (fun _ => "there") initialStore) in
  text <$> messages (state st') = ["Hi"]
  /\ currentTranscription (state st') = "".
Proof.
  intros r st'.
  destruct (X22_turn_complete_finalizes_the_captured_text decode24k r 0 2000
              (setCurrentTranscription (fun _ => "there") initialStore) eq_refl)
    as [Hm Hc].
  fold st' in Hm, Hc. rewrite Hm. split; [reflexivity | exact Hc].
Defined.

(* ------------------------------------------------------------------ *)
(** ** The order of what is sent *)

(** The chunk of a block. *)
Lemma audio_step (decodeAudioData : list byte -> option double) (g t : nat)
    (pcm16 : list byte) (st : Store) (a : AudioGraph) (tr : Transport) :
  audioGraphs (browser st) !! g = Some a ->
  ag_source_connected a = true -> ag_processor_connected a = true ->
  ag_isMuted a = false ->
  sessionPromiseRef (refs st) = Some t ->
  transports (browser st) !! t = Some tr ->
  tr_resolved tr = true -> tr_readyState tr = Open ->
  step decodeAudioData st (audioprocess g pcm16)
  = on_transports (alter (add_sent (audio_chunk pcm16)) t) st.
Proof.
  intros Hg Hs Hp Hm Hp' Ht Hr Ho.
  unfold step, handler, after.
  rewrite bind_get, Hg, Hs, Hp. cbn [andb when]. unfold onaudioprocess.
  rewrite Hm.
  rewrite (then_send_resolved _ _ st t tr Hp' Ht Hr).
  rewrite (send_or_warn_open t _ st tr Ht Ho). reflexivity.
Qed.

(** X23. Blocks delivered one after the other to a connected processor
    installed unmuted, on a session whose promise has resolved and whose
    transport is open, go out one chunk each and in the order of the
    blocks, after what was sent before; nothing else in the store
    changes. *)
Theorem X23_blocks_are_sent_in_order
    (decodeAudioData : list byte -> option double) (g t : nat)
    (blocks : list (list byte)) (st : Store) (a : AudioGraph) (tr : Transport) :
  audioGraphs (browser st) !! g = Some a ->
  ag_source_connected a = true -> ag_processor_connected a = true ->
  ag_isMuted a = false ->
  sessionPromiseRef (refs st) = Some t ->
  transports (browser st) !! t = Some tr ->
  tr_resolved tr = true -> tr_readyState tr = Open ->
  let st' := run decodeAudioData (audioprocess g <$> blocks) st in
  sent_on t st' = (tr_sent tr ++ (audio_chunk <$> blocks))%list
  /\ state st' = state st /\ refs st' = refs st
  /\ console (browser st') = console (browser st).
Proof.
  revert st tr. induction blocks as [|pcm16 blocks IH];
    intros st tr Hg Hs Hp Hm Hp' Ht Hr Ho.
  - cbn. unfold sent_on. rewrite Ht. cbn. rewrite app_nil_r. repeat split.
  - cbn [fmap list_fmap run fold_left].
    rewrite (audio_step decodeAudioData g t pcm16 st a tr Hg Hs Hp Hm Hp' Ht Hr Ho).
    destruct (IH (on_transports (alter (add_sent (audio_chunk pcm16)) t) st)
                 (add_sent (audio_chunk pcm16) tr))
      as (H1 & H2 & H3 & H4); try assumption.
    { store_unfold. cbn. rewrite list_lookup_alter_eq, Ht. reflexivity. }
    unfold run in *. cbn zeta in *.
    rewrite H1, H2, H3, H4. cbn. rewrite <- app_assoc. repeat split.
Qed.

Lemma X23_blocks_are_sent_in_order_witness :
  let st := run decode24k connect initialStore in
  data <$> sent_on 0 (run decode24k
                        (audioprocess 0 <$> [["M"%byte]; ["M"%byte; "a"%byte]]) st)
  = ["TQ=="; "TWE="].
Proof.
  intros st.
  destruct (X23_blocks_are_sent_in_order decode24k 0 0
              [["M"%byte]; ["M"%byte; "a"%byte]] st
              {| ag_stream := 0; ag_isMuted := false;
                 ag_source_connected := true; ag_processor_connected := true |}
              {| tr_render := render initialStore; tr_stream := 0;
                 tr_readyState := Open; tr_resolved := true;
                 tr_thens := []; tr_sent := [] |}
              eq_refl eq_refl eq_refl eq_refl eq_refl eq_refl eq_refl eq_refl)
    as (H & _).
  rewrite H. reflexivity.
Defined.

Lemma X9_at_most_one_frame_timer_witness :
  let st := run decode24k
              (connect ++ [transport_closes 0;
                           click_startSession (Some "key") false;
                           getUserMedia_settles 1 Resolved false;
                           play_settles 1 Resolved false;
                           transport_opens 1])
              initialStore in
  iv_active <$> intervals (browser st) = [false; true]
  /\ frameIntervalRef (refs st) = Some 1%nat.
Proof.
  intros st. split; [reflexivity|].
  exact (proj1 (X9_at_most_one_frame_timer decode24k
                  (connect ++ [transport_closes 0;
                               click_startSession (Some "key") false;
                               getUserMedia_settles 1 Resolved false;
                               play_settles 1 Resolved false;
                               transport_opens 1])%list)
           1%nat {| iv_isVideoEnabled := true; iv_active := true |}
           eq_refl eq_refl).
Defined.

Lemma X21_which_buttons_are_rendered_witness :
  let s := state (run decode24k (connect ++ [click_toggleVideo]) initialStore) in
  start_button_rendered s = true /\ stop_button_rendered s = true.
Proof.
  intros s.
  exact (proj2 (proj2 (proj2 (proj2 (X21_which_buttons_are_rendered s))))
           eq_refl eq_refl).
Defined.
